(** * awslimitchecker.trustedadvisor: a shallow embedding and its properties

    The Python class [TrustedAdvisor] polls the Support API for the
    'Service Limits' check and pushes the limits it finds onto the service
    objects of a registry.  This development embeds the class method by
    method: Python exceptions become a [result] type, the logger, the
    connection attribute and the service objects live in an explicit
    [World] threaded by a small state-and-exception monad, and dicts are
    insertion-ordered association lists with unique keys. *)

From Stdlib Require Import String Ascii ZArith List Bool Lia.
From Stdlib Require Import Permutation Sorted.
Import ListNotations.

Local Open Scope string_scope.
Local Open Scope list_scope.

(** ** Python values used by the module *)

Module Py.

(** The exception classes that can occur.  [UnicodeError] is a subclass of
    [ValueError]; [Exception cls msg] stands for any class outside the
    [ValueError] hierarchy (transport errors of boto and the like). *)
Inductive exn : Type :=
| ValueError (msg : string)
| UnicodeError (msg : string)
| KeyError (key : string)
| AttributeError (msg : string)
| Exception (cls msg : string).

(** [isinstance(e, ValueError)], the test made by [except ValueError]. *)
Definition is_ValueError (e : exn) : bool :=
  match e with
  | ValueError _ | UnicodeError _ => true
  | _ => false
  end.

Inductive result (A : Type) : Type :=
| Ok (a : A)
| Raise (e : exn).
Arguments Ok {A} a.
Arguments Raise {A} e.

(** A [dict] with string keys: the entries in insertion order. *)
Definition dict (V : Type) : Type := list (string * V).

Fixpoint dict_get {V} (d : dict V) (k : string) : option V :=
  match d with
  | [] => None
  | (k', v) :: d' => if k' =? k then Some v else dict_get d' k
  end.

(** [k in d] *)
Definition dict_mem {V} (d : dict V) (k : string) : bool :=
  match dict_get d k with Some _ => true | None => false end.

(** [d[k] = v]: an existing key keeps its place, a new key goes last. *)
Fixpoint dict_set {V} (d : dict V) (k : string) (v : V) : dict V :=
  match d with
  | [] => [(k, v)]
  | (k', v') :: d' =>
      if k' =? k then (k', v) :: d' else (k', v') :: dict_set d' k v
  end.

(** [d[k]] as an expression: raises [KeyError] on a missing key. *)
Definition getitem {V} (d : dict V) (k : string) : result V :=
  match dict_get d k with
  | Some v => Ok v
  | None => Raise (KeyError k)
  end.

(** [d.keys()] *)
Definition keys {V} (d : dict V) : list string := map fst d.

(** [dict(pairs)]: later pairs overwrite earlier ones. *)
Definition dict_of {V} (pairs : list (string * V)) : dict V :=
  fold_left (fun d kv => dict_set d (fst kv) (snd kv)) pairs [].

(** [zip(xs, ys)] stops at the shorter list. *)
Definition zip {A B} (xs : list A) (ys : list B) : list (A * B) :=
  combine xs ys.

(** [sorted(names)] on strings: ascending in the code-point order of
    [String.compare].  Insertion from the right keeps equal names in their
    original order, as Python's stable sort does. *)
Fixpoint insert_sorted (x : string) (l : list string) : list string :=
  match l with
  | [] => [x]
  | y :: l' => if String.leb x y then x :: l else y :: insert_sorted x l'
  end.

Definition sorted (l : list string) : list string :=
  fold_right insert_sorted [] l.

(** [int(s)] for a string in base 10: surrounding whitespace is dropped,
    one sign is allowed, then at least one decimal digit and nothing else
    (the digit-grouping underscores of recent Python versions are left
    out). *)
Definition is_space (c : ascii) : bool :=
  let n := nat_of_ascii c in
  ((9 <=? n) && (n <=? 13) || (n =? 32))%nat.

Fixpoint lstrip (s : string) : string :=
  match s with
  | String c s' => if is_space c then lstrip s' else s
  | EmptyString => EmptyString
  end.

Fixpoint rstrip (s : string) : string :=
  match s with
  | String c s' =>
      match rstrip s' with
      | EmptyString => if is_space c then EmptyString else String c EmptyString
      | t => String c t
      end
  | EmptyString => EmptyString
  end.

Definition strip (s : string) : string := rstrip (lstrip s).

Definition digit_of (c : ascii) : option Z :=
  let n := nat_of_ascii c in
  if ((48 <=? n) && (n <=? 57))%nat then Some (Z.of_nat (n - 48)) else None.

Fixpoint digits (acc : Z) (s : string) : option Z :=
  match s with
  | EmptyString => Some acc
  | String c s' =>
      match digit_of c with
      | Some d => digits (10 * acc + d) s'
      | None => None
      end
  end.

Definition number (s : string) : option Z :=
  match s with
  | EmptyString => None
  | _ => digits 0 s
  end.

Definition int (s : string) : result Z :=
  let bad := Raise (ValueError ("invalid literal for int() with base 10: '" ++ s ++ "'")) in
  match strip s with
  | String "-" t =>
      match number t with Some n => Ok (- n)%Z | None => bad end
  | String "+" t =>
      match number t with Some n => Ok n | None => bad end
  | t =>
      match number t with Some n => Ok n | None => bad end
  end.

End Py.
Import Py.


(** ** The Support API as the module reads it *)

(** One entry of [describe_trusted_advisor_checks(...)['checks']]. *)
Record Check : Type := {
  check_category : string;
  check_name : string;
  check_id : string;
  check_metadata : list string
}.

(** One entry of [checks['result']['flaggedResources']]. *)
Record FlaggedResource : Type := {
  res_region : string;
  res_metadata : list string
}.

(** [describe_trusted_advisor_check_result(check_id)['result']]. *)
Record CheckResult : Type := {
  timestamp : string;
  flaggedResources : list FlaggedResource
}.

(** A boto Support connection: its region name and the two calls made on
    it, each of which may raise. *)
Record Connection : Type := {
  region_name : string;
  describe_trusted_advisor_checks : string -> result (list Check);
  describe_trusted_advisor_check_result : string -> result CheckResult
}.

Inductive level : Type := DEBUG | INFO | WARNING | CRITICAL.

Definition LogRecord : Type := (level * string)%type.

(** Modelled from the spec: the service objects of the registry are built
    by classes outside this module; the spec gives a Service one operation,
    setting the advisory value of a limit by name, which fails when the
    service does not recognise the name.  A service is its table of limits
    with the advisory value of each, absent until set. *)
Record AwsService : Type := {
  service_name : string;
  limits : dict (option Z)
}.

Definition AwsService_set_ta_limit (s : AwsService) (limit_name : string)
    (value : Z) : AwsService * option exn :=
  if dict_mem (limits s) limit_name then
    ({| service_name := service_name s;
        limits := dict_set (limits s) limit_name (Some value) |}, None)
  else
    (s, Some (ValueError (service_name s ++ " service has no '"
                          ++ limit_name ++ "' limit"))).

(** Service objects live in a store and the registry dict holds references
    to them, so two names may share an object. *)
Definition ref : Type := nat.

(** Everything a method can read or change: [self.conn], the service
    objects, the records emitted on the logger, and how many times
    [boto.connect_support] has been called. *)
Record WorldOf (Service : Type) : Type := {
  conn : option Connection;
  store : ref -> Service;
  log : list LogRecord;
  support_connects : nat
}.
Arguments conn {Service} _.
Arguments store {Service} _ _.
Arguments log {Service} _.
Arguments support_connects {Service} _.

(** ** Sample data

    An account with two services, a Support connection in us-east-1 that
    lists four checks (two near misses, the wanted one, and a second copy
    of it), and a check result with rows from several regions. *)

Module Sample.

Definition ec2 : AwsService :=
  {| service_name := "EC2";
     limits := [("Running On-Demand Instances", None); ("Instances", None)] |}.

Definition vpc : AwsService :=
  {| service_name := "VPC"; limits := [("VPCs", None)] |}.

Definition objects : ref -> AwsService :=
  fun r => match r with O => ec2 | _ => vpc end.

Definition services : dict ref := [("EC2", 0); ("VPC", 1)].

Definition fields : list string :=
  ["Region"; "Service"; "Limit Name"; "Limit Amount"].

Definition lowercase_check : Check :=
  {| check_category := "performance"; check_name := "service limits";
     check_id := "aaaaaaaaaa"; check_metadata := ["Service"] |}.

Definition security_check : Check :=
  {| check_category := "security"; check_name := "Service Limits";
     check_id := "bbbbbbbbbb"; check_metadata := ["Region"] |}.

Definition limits_check : Check :=
  {| check_category := "performance"; check_name := "Service Limits";
     check_id := "eW7HH0l7J9"; check_metadata := fields |}.

Definition second_limits_check : Check :=
  {| check_category := "performance"; check_name := "Service Limits";
     check_id := "cccccccccc"; check_metadata := ["Service"] |}.

Definition checks : list Check :=
  [lowercase_check; security_check; limits_check; second_limits_check].

Definition row (region svc lim amount : string) : FlaggedResource :=
  {| res_region := region; res_metadata := [region; svc; lim; amount] |}.

Definition first_row : FlaggedResource :=
  row "us-east-1" "EC2" "Running On-Demand Instances" "20".

Definition foreign_row : FlaggedResource :=
  row "eu-west-1" "EC2" "Running On-Demand Instances" "40".

Definition repeated_row : FlaggedResource :=
  row "us-east-1" "EC2" "Running On-Demand Instances" "25".

Definition vpc_row : FlaggedResource := row "us-east-1" "VPC" "VPCs" "5".

(** A row of another region that lacks most of its fields. *)
Definition short_row : FlaggedResource :=
  {| res_region := "ap-south-1"; res_metadata := ["ap-south-1"] |}.

Definition rows : list FlaggedResource :=
  [first_row; foreign_row; repeated_row; vpc_row; short_row].

Definition check_result : CheckResult :=
  {| timestamp := "2015-06-15T20:27:42Z"; flaggedResources := rows |}.

Definition support : Connection :=
  {| region_name := "us-east-1";
     describe_trusted_advisor_checks := fun _ => Ok checks;
     describe_trusted_advisor_check_result := fun _ => Ok check_result |}.

(** A connection for an account without the 'Service Limits' check. *)
Definition basic_support : Connection :=
  {| region_name := "us-east-1";
     describe_trusted_advisor_checks :=
       fun _ => Ok [lowercase_check; security_check];
     describe_trusted_advisor_check_result := fun _ => Ok check_result |}.

Definition parse (s : string) : result string := Ok s.

Definition fresh : WorldOf AwsService :=
  {| conn := None; store := objects; log := []; support_connects := 0 |}.

Definition connected : WorldOf AwsService :=
  {| conn := Some support; store := objects; log := [];
     support_connects := 1 |}.

(** What [_poll] is expected to return on [support]. *)
Definition polled : dict (dict Z) :=
  [("EC2", [("Running On-Demand Instances", 25%Z)]); ("VPC", [("VPCs", 5%Z)])].

(** A map naming a service the registry lacks and a limit EC2 lacks. *)
Definition mixed : dict (dict Z) :=
  [("Foo", [("Bar", 1%Z)]);
   ("VPC", [("VPCs", 5%Z)]);
   ("EC2", [("Running On-Demand Instances", 20%Z); ("Bogus", 7%Z)])].

(** The same content as [mixed], inserted in another order. *)
Definition mixed_reordered : dict (dict Z) :=
  [("EC2", [("Bogus", 7%Z); ("Running On-Demand Instances", 20%Z)]);
   ("Foo", [("Bar", 1%Z)]);
   ("VPC", [("VPCs", 5%Z)])].

(** A stricter service class: it refuses negative values with a
    [ValueError] of its own and lets the [KeyError] of an unknown limit
    name through. *)
Definition strict_set_ta_limit (s : AwsService) (limit_name : string)
    (value : Z) : AwsService * option exn :=
  if (value <? 0)%Z then (s, Some (ValueError "limit value must not be negative"))
  else if dict_mem (limits s) limit_name then
    ({| service_name := service_name s;
        limits := dict_set (limits s) limit_name (Some value) |}, None)
  else (s, Some (KeyError limit_name)).

Definition negative : dict (dict Z) :=
  [("EC2", [("Instances", (-1)%Z); ("Running On-Demand Instances", 20%Z);
            ("Zones", 3%Z)]);
   ("VPC", [("VPCs", 5%Z)])].

End Sample.

(** ** Sample data for the failing paths *)

Module Faulty.

(** What boto raises when the account has no support plan. *)
Definition refused : exn :=
  Exception "JSONResponseError" "SubscriptionRequiredException".

Definition no_listing : Connection :=
  {| region_name := "us-east-1";
     describe_trusted_advisor_checks := fun _ => Raise refused;
     describe_trusted_advisor_check_result :=
       fun _ => Ok Sample.check_result |}.

Definition no_result : Connection :=
  {| region_name := "us-east-1";
     describe_trusted_advisor_checks := fun _ => Ok Sample.checks;
     describe_trusted_advisor_check_result := fun _ => Raise refused |}.

Definition parse_fails (s : string) : result string :=
  Raise (ValueError "Unknown string format").

(** A good row, a row whose amount is a word, and a good row after it. *)
Definition word_row : FlaggedResource :=
  Sample.row "us-east-1" "VPC" "VPCs" "five".

Definition word_result : CheckResult :=
  {| timestamp := "2015-06-15T20:27:42Z";
     flaggedResources := [Sample.first_row; word_row; Sample.vpc_row] |}.

Definition word_support : Connection :=
  {| region_name := "us-east-1";
     describe_trusted_advisor_checks := fun _ => Ok Sample.checks;
     describe_trusted_advisor_check_result := fun _ => Ok word_result |}.

(** A result whose rows all lie in other regions. *)
Definition abroad_result : CheckResult :=
  {| timestamp := "2015-06-15T20:27:42Z";
     flaggedResources := [Sample.foreign_row; Sample.short_row] |}.

Definition abroad_support : Connection :=
  {| region_name := "us-east-1";
     describe_trusted_advisor_checks := fun _ => Ok Sample.checks;
     describe_trusted_advisor_check_result := fun _ => Ok abroad_result |}.

Definition world_on (c : Connection) : WorldOf AwsService :=
  {| conn := Some c; store := Sample.objects; log := [];
     support_connects := 1 |}.

(** A registry that knows none of the services of [Sample.mixed]. *)
Definition other_services : dict ref := [("S3", 2); ("RDS", 3)].

End Faulty.

(** ** The class *)

Section TrustedAdvisor.

(** The collaborators taken as given: the service class with its
    [_set_ta_limit] method (the new state of the receiver and the exception
    raised, if any), [boto.connect_support] and [dateutil.parser.parse]. *)
Variable Service : Type.
Variable set_ta_limit : Service -> string -> Z -> Service * option exn.
Variable connect_support : result Connection.
Variable parser_parse : string -> result string.

(** The service objects, by reference. *)
Definition Store : Type := ref -> Service.

Definition store_set (h : Store) (r : ref) (s : Service) : Store :=
  fun r' => if Nat.eqb r' r then s else h r'.

Definition World : Type := WorldOf Service.

(** A method body: it returns or raises, and leaves a world either way. *)
Definition M (A : Type) : Type := World -> result A * World.

Definition ret {A} (a : A) : M A := fun w => (Ok a, w).

Definition raise {A} (e : exn) : M A := fun w => (Raise e, w).

Definition bind {A B} (m : M A) (k : A -> M B) : M B :=
  fun w =>
    match m w with
    | (Ok a, w') => k a w'
    | (Raise e, w') => (Raise e, w')
    end.

Notation "x <- m ;; k" := (bind m (fun x => k))
  (at level 61, m at next level, right associativity).
Notation "m ;; k" := (bind m (fun _ => k))
  (at level 61, right associativity).

Definition lift {A} (r : result A) : M A := fun w => (r, w).

(** [try: m  except ValueError: handler] *)
Definition try_except_ValueError {A} (m : M A) (handler : M A) : M A :=
  fun w =>
    match m w with
    | (Raise e, w') => if is_ValueError e then handler w' else (Raise e, w')
    | r => r
    end.

(** [for x in xs: body(x)] *)
Fixpoint for_each {A} (xs : list A) (body : A -> M unit) : M unit :=
  match xs with
  | [] => ret tt
  | x :: xs' => body x ;; for_each xs' body
  end.

Definition emit (l : level) (msg : string) (w : World) : World :=
  {| conn := conn w; store := store w; log := log w ++ [(l, msg)];
     support_connects := support_connects w |}.

Definition logger (l : level) (msg : string) : M unit :=
  fun w => (Ok tt, emit l msg w).

(** [self.conn] read for an attribute or method access. *)
Definition self_conn : M (option Connection) := fun w => (Ok (conn w), w).

Definition conn_attr : M Connection :=
  c <- self_conn ;;
  match c with
  | Some c => ret c
  | None => raise (AttributeError "'NoneType' object has no attribute")
  end.

Definition set_conn (c : Connection) : M unit :=
  fun w => (Ok tt, {| conn := Some c; store := store w; log := log w;
                      support_connects := support_connects w |}).

(** [boto.connect_support()] *)
Definition boto_connect_support : M Connection :=
  fun w => (connect_support,
            {| conn := conn w; store := store w; log := log w;
               support_connects := S (support_connects w) |}).

(** [service._set_ta_limit(lim_name, value)] on the object behind [r]. *)
Definition store_after (h : Store) (r : ref) (lim_name : string) (value : Z)
    : Store :=
  store_set h r (fst (set_ta_limit (h r) lim_name value)).

Definition _set_ta_limit (r : ref) (lim_name : string) (value : Z) : M unit :=
  fun w =>
    (match snd (set_ta_limit (store w r) lim_name value) with
     | None => Ok tt
     | Some e => Raise e
     end,
     {| conn := conn w; store := store_after (store w) r lim_name value;
        log := log w; support_connects := support_connects w |}).

(** [__init__]: a new object has no connection. *)
Definition __init__ (w : World) : World :=
  {| conn := None; store := store w; log := log w;
     support_connects := support_connects w |}.

Definition connect : M unit :=
  c <- self_conn ;;
  match c with
  | None =>
      logger DEBUG "Connecting to Support API (TrustedAdvisor)" ;;
      c <- boto_connect_support ;;
      set_conn c ;;
      logger INFO "Connected to Support API"
  | Some _ => ret tt
  end.

(** The test of the loop in [_get_limit_check_id]. *)
Definition is_limit_check (check : Check) : bool :=
  (check_category check =? "performance")
  && (check_name check =? "Service Limits").

Fixpoint find_limit_check (checks : list Check)
    : M (option (string * list string)) :=
  match checks with
  | [] => ret None
  | check :: checks' =>
      if is_limit_check check then
        logger DEBUG ("Found TA check; id=" ++ check_id check) ;;
        ret (Some (check_id check, check_metadata check))
      else find_limit_check checks'
  end.

Definition _get_limit_check_id : M (option (string * list string)) :=
  logger DEBUG "Querying Trusted Advisor checks" ;;
  c <- conn_attr ;;
  checks <- lift (describe_trusted_advisor_checks c "en") ;;
  found <- find_limit_check checks ;;
  match found with
  | Some r => ret (Some r)
  | None =>
      logger DEBUG ("Unable to find check with category 'performance' and "
                    ++ "name 'Service Limits'.") ;;
      ret None
  end.

(** The result map of [_poll]: service name, then limit name, to value. *)
Definition LimitMap : Type := dict (dict Z).

Definition get2 (res : LimitMap) (svc lim : string) : option Z :=
  match dict_get res svc with
  | Some limits => dict_get limits lim
  | None => None
  end.

(** [dict(zip(metadata, check['metadata']))] *)
Definition row_data (metadata : list string) (check : FlaggedResource)
    : dict string :=
  dict_of (zip metadata (res_metadata check)).

(** One turn of the loop over [flaggedResources] in [_poll].  The
    assignment evaluates its right-hand side first, then the two subscripts
    of its target. *)
Definition poll_row (region : string) (metadata : list string)
    (res : LimitMap) (check : FlaggedResource) : result LimitMap :=
  if negb (res_region check =? region) then Ok res
  else
    let data := row_data metadata check in
    match getitem data "Service" with
    | Raise e => Raise e
    | Ok svc =>
        let res := if negb (dict_mem res svc) then dict_set res svc [] else res in
        match getitem data "Limit Amount" with
        | Raise e => Raise e
        | Ok amount =>
            match int amount with
            | Raise e => Raise e
            | Ok value =>
                match getitem data "Service" with
                | Raise e => Raise e
                | Ok svc' =>
                    match getitem res svc' with
                    | Raise e => Raise e
                    | Ok limits =>
                        match getitem data "Limit Name" with
                        | Raise e => Raise e
                        | Ok lim =>
                            Ok (dict_set res svc' (dict_set limits lim value))
                        end
                    end
                end
            end
        end
    end.

Fixpoint poll_rows (region : string) (metadata : list string)
    (rows : list FlaggedResource) (res : LimitMap) : result LimitMap :=
  match rows with
  | [] => Ok res
  | check :: rows' =>
      match poll_row region metadata res check with
      | Ok res' => poll_rows region metadata rows' res'
      | Raise e => Raise e
      end
  end.

(** [_poll] returns [None] when the check is not found. *)
Definition _poll : M (option LimitMap) :=
  logger INFO "Beginning TrustedAdvisor poll" ;;
  tmp <- _get_limit_check_id ;;
  match tmp with
  | None =>
      logger CRITICAL ("Unable to find 'Service Limits' Trusted Advisor "
                       ++ "check; not using Trusted Advisor data.") ;;
      ret None
  | Some (check_id, metadata) =>
      c <- conn_attr ;;
      let region := region_name c in
      c <- conn_attr ;;
      checks <- lift (describe_trusted_advisor_check_result c check_id) ;;
      check_datetime <- lift (parser_parse (timestamp checks)) ;;
      logger DEBUG ("Got TrustedAdvisor data for check " ++ check_id
                    ++ " as of " ++ check_datetime) ;;
      res <- lift (poll_rows region metadata (flaggedResources checks) []) ;;
      logger INFO "Finished TrustedAdvisor poll" ;;
      ret (Some res)
  end.

Definition unknown_service_msg (svc_name : string) : string :=
  "TrustedAdvisor returned check results for unknown service '"
  ++ svc_name ++ "'".

Definition unknown_limit_msg (lim_name svc_name : string) : string :=
  "TrustedAdvisor returned check results for unknown limit '"
  ++ lim_name ++ "' (service " ++ svc_name ++ ")".

(** The body of the inner loop of [_update_services]. *)
Definition update_limit (svc_name : string) (service : ref)
    (limits : dict Z) (lim_name : string) : M unit :=
  try_except_ValueError
    (value <- lift (getitem limits lim_name) ;;
     _set_ta_limit service lim_name value)
    (logger WARNING (unknown_limit_msg lim_name svc_name)).

(** The body of the outer loop of [_update_services]. *)
Definition update_service (ta_results : LimitMap) (services : dict ref)
    (svc_name : string) : M unit :=
  limits <- lift (getitem ta_results svc_name) ;;
  if negb (dict_mem services svc_name) then
    logger CRITICAL (unknown_service_msg svc_name)
  else
    service <- lift (getitem services svc_name) ;;
    for_each (sorted (keys limits)) (update_limit svc_name service limits).

(** [ta_results] is what [_poll] returned, [None] included; [None] has no
    [keys] attribute. *)
Definition _update_services (ta_results : option LimitMap)
    (services : dict ref) : M unit :=
  logger DEBUG "Updating TA limits on all services" ;;
  match ta_results with
  | None => raise (AttributeError "'NoneType' object has no attribute 'keys'")
  | Some ta_results =>
      for_each (sorted (keys ta_results)) (update_service ta_results services) ;;
      logger INFO "Done updating TA limits on all services"
  end.

Definition update_limits (services : dict ref) : M unit :=
  connect ;;
  ta_results <- _poll ;;
  _update_services ta_results services.

(** ** The work list of [_update_services]

    What the two nested loops do, written as one list of steps: a service
    the registry does not know gives one [Unknown] step, a known one gives
    an [Attempt] per limit. *)
Inductive action : Type :=
| Unknown (svc_name : string)
| Attempt (svc_name : string) (service : ref) (lim_name : string) (value : Z).

Definition action_service (a : action) : string :=
  match a with
  | Unknown svc_name => svc_name
  | Attempt svc_name _ _ _ => svc_name
  end.

Definition action_limit (a : action) : string :=
  match a with
  | Unknown _ => ""
  | Attempt _ _ lim_name _ => lim_name
  end.

(** Strictly earlier: a smaller service name, or the same service and a
    smaller limit name. *)
Definition action_lt (a b : action) : bool :=
  String.ltb (action_service a) (action_service b)
  || (action_service a =? action_service b)
     && String.ltb (action_limit a) (action_limit b).

Definition limit_steps (svc_name : string) (service : ref) (limits : dict Z)
    (names : list string) : list action :=
  flat_map (fun lim_name =>
              match dict_get limits lim_name with
              | Some value => [Attempt svc_name service lim_name value]
              | None => []
              end) names.

Definition service_steps (ta_results : LimitMap) (services : dict ref)
    (svc_name : string) : list action :=
  match dict_get ta_results svc_name with
  | None => []
  | Some limits =>
      match dict_get services svc_name with
      | None => [Unknown svc_name]
      | Some service =>
          limit_steps svc_name service limits (sorted (keys limits))
      end
  end.

Definition plan (ta_results : LimitMap) (services : dict ref) : list action :=
  flat_map (service_steps ta_results services) (sorted (keys ta_results)).

(** The world after [service._set_ta_limit(lim_name, value)], whether it
    returned or raised. *)
Definition called (r : ref) (lim_name : string) (value : Z) (w : World)
    : World :=
  {| conn := conn w; store := store_after (store w) r lim_name value;
     log := log w; support_connects := support_connects w |}.

(** One step as the loops run it. *)
Definition do_action (a : action) : M unit :=
  match a with
  | Unknown svc_name => logger CRITICAL (unknown_service_msg svc_name)
  | Attempt svc_name service lim_name value =>
      try_except_ValueError
        (_set_ta_limit service lim_name value)
        (logger WARNING (unknown_limit_msg lim_name svc_name))
  end.

(** One step when the service raises nothing but [ValueError]: the call is
    made, and a rejected name leaves a warning. *)
Definition apply_action (w : World) (a : action) : World :=
  match a with
  | Unknown svc_name => emit CRITICAL (unknown_service_msg svc_name) w
  | Attempt svc_name service lim_name value =>
      match snd (set_ta_limit (store w service) lim_name value) with
      | None => called service lim_name value w
      | Some _ =>
          emit WARNING (unknown_limit_msg lim_name svc_name)
            (called service lim_name value w)
      end
  end.

(** The limits of one service as the inner loop visits them, and the state
    of a service object after those calls. *)
Definition sorted_items (limits : dict Z) : list (string * Z) :=
  flat_map (fun lim_name =>
              match dict_get limits lim_name with
              | Some value => [(lim_name, value)]
              | None => []
              end) (sorted (keys limits)).

Definition service_after (s : Service) (items : list (string * Z)) : Service :=
  fold_left (fun s kv => fst (set_ta_limit s (fst kv) (snd kv))) items s.

(** What one step does to the object behind [r]. *)
Definition step_on (r : ref) (s : Service) (a : action) : Service :=
  match a with
  | Attempt _ r' lim_name value =>
      if Nat.eqb r r' then fst (set_ta_limit s lim_name value) else s
  | Unknown _ => s
  end.

(** The world after the first and after the last log record of
    [_update_services]. *)
Definition started (w : World) : World :=
  emit DEBUG "Updating TA limits on all services" w.

Definition finished (w : World) : World :=
  emit INFO "Done updating TA limits on all services" w.

(** The contract of the service class: an unknown limit name, signalled by
    [ValueError], is the only way [_set_ta_limit] fails. *)
Definition raises_only_ValueError : Prop :=
  forall s lim_name value e,
    snd (set_ta_limit s lim_name value) = Some e -> is_ValueError e = true.

(** Dict invariants: keys are unique, on both levels of a limit map. *)
Definition unique_keys {V} (d : dict V) : Prop := NoDup (keys d).

Definition well_formed (m : LimitMap) : Prop :=
  unique_keys m /\
  forall svc_name limits,
    dict_get m svc_name = Some limits -> unique_keys limits.

(** Two limit maps with the same content, whatever the order of insertion. *)
Definition same_map (m m' : LimitMap) : Prop :=
  forall svc_name lim_name,
    dict_mem m svc_name = dict_mem m' svc_name /\
    get2 m svc_name lim_name = get2 m' svc_name lim_name.

(** A retained row that names service [svc] and limit [lim]. *)
Definition row_targets (region : string) (metadata : list string)
    (svc lim : string) (check : FlaggedResource) : Prop :=
  res_region check = region /\
  dict_get (row_data metadata check) "Service" = Some svc /\
  dict_get (row_data metadata check) "Limit Name" = Some lim.

(** Ascending and strictly ascending string order, as relations. *)
Definition le_str (x y : string) : Prop := String.leb x y = true.
Definition lt_str (x y : string) : Prop := String.ltb x y = true.

(** [w'] is [w] with more log records and nothing else changed. *)
Definition only_logged (w w' : World) : Prop :=
  conn w' = conn w /\ store w' = store w /\
  support_connects w' = support_connects w /\
  exists records, log w' = log w ++ records.

(** The connection [update_limits] works with from [w]: the one held, or
    the one [boto.connect_support] gives when none is held. *)
Definition session (w : World) (c : Connection) : Prop :=
  conn w = Some c \/ (conn w = None /\ connect_support = Ok c).

(** [check] is the check the locator returns on connection [c]. *)
Definition locates (c : Connection) (check : Check) : Prop :=
  exists pre post,
    describe_trusted_advisor_checks c "en" = Ok (pre ++ check :: post) /\
    Forall (fun x => is_limit_check x = false) pre /\
    is_limit_check check = true.

(** A row the loop of [_poll] gets past: one of another region, or one
    whose three fields are present and whose amount is an integer. *)
Definition row_reads (region : string) (metadata : list string)
    (row : FlaggedResource) : Prop :=
  res_region row <> region \/
  exists svc lim amount value,
    dict_get (row_data metadata row) "Service" = Some svc /\
    dict_get (row_data metadata row) "Limit Name" = Some lim /\
    dict_get (row_data metadata row) "Limit Amount" = Some amount /\
    int amount = Ok value.

(** ** Strings in order *)

Local Arguments String.append : simpl never.

Lemma ascii_compare_refl (a : ascii) : Ascii.compare a a = Eq.
Proof. unfold Ascii.compare. apply N.compare_refl. Qed.

Lemma ascii_compare_lt_trans (a b c : ascii) :
  Ascii.compare a b = Lt -> Ascii.compare b c = Lt -> Ascii.compare a c = Lt.
Proof.
  unfold Ascii.compare. rewrite !N.compare_lt_iff. apply N.lt_trans.
Qed.

Lemma compare_refl (s : string) : String.compare s s = Eq.
Proof.
  induction s as [|a s IH]; simpl; [reflexivity|].
  now rewrite ascii_compare_refl.
Qed.

Lemma compare_lt_trans (s1 : string) :
  forall s2 s3,
    String.compare s1 s2 = Lt -> String.compare s2 s3 = Lt ->
    String.compare s1 s3 = Lt.
Proof.
  induction s1 as [|a s1 IH]; intros [|b s2] [|c s3]; simpl;
    try discriminate; try reflexivity.
  destruct (Ascii.compare a b) eqn:Hab; try discriminate;
    destruct (Ascii.compare b c) eqn:Hbc; try discriminate; intros H12 H23.
  - apply Ascii.compare_eq_iff in Hab, Hbc. subst.
    rewrite ascii_compare_refl. eauto.
  - apply Ascii.compare_eq_iff in Hab. subst. now rewrite Hbc.
  - apply Ascii.compare_eq_iff in Hbc. subst. now rewrite Hab.
  - now rewrite (ascii_compare_lt_trans a b c).
Qed.

Lemma leb_cases (x y : string) :
  String.leb x y = true <-> x = y \/ String.ltb x y = true.
Proof.
  unfold String.leb, String.ltb.
  destruct (String.compare x y) eqn:H; split; intros H0; auto.
  - left. now apply String.compare_eq_iff.
  - destruct H0 as [->|H0]; [now rewrite compare_refl in H | discriminate].
Qed.

Lemma ltb_trans (x y z : string) :
  String.ltb x y = true -> String.ltb y z = true -> String.ltb x z = true.
Proof.
  unfold String.ltb.
  destruct (String.compare x y) eqn:Hxy; try discriminate.
  destruct (String.compare y z) eqn:Hyz; try discriminate.
  now rewrite (compare_lt_trans x y z).
Qed.

Lemma ltb_irrefl (x : string) : String.ltb x x = false.
Proof. unfold String.ltb. now rewrite compare_refl. Qed.

Lemma leb_trans (x y z : string) :
  String.leb x y = true -> String.leb y z = true -> String.leb x z = true.
Proof.
  rewrite !leb_cases. intros [->|Hxy] [->|Hyz]; auto.
  right. eapply ltb_trans; eauto.
Qed.

Lemma ltb_leb_neq (x y : string) :
  String.ltb x y = true <-> String.leb x y = true /\ x <> y.
Proof.
  rewrite leb_cases. split.
  - intros H. split; [now right|]. intros ->. now rewrite ltb_irrefl in H.
  - intros [[->|H] Hne]; [now destruct Hne | exact H].
Qed.

Lemma leb_false_ltb (x y : string) :
  String.leb x y = false -> String.leb y x = true.
Proof.
  intros H. destruct (String.leb_total x y) as [H'|H']; congruence.
Qed.

(** ** [sorted] *)

Lemma insert_sorted_perm (x : string) (l : list string) :
  Permutation (insert_sorted x l) (x :: l).
Proof.
  induction l as [|y l IH]; simpl; [reflexivity|].
  destruct (String.leb x y); [reflexivity|].
  rewrite IH. apply perm_swap.
Qed.

Lemma sorted_perm (l : list string) : Permutation (sorted l) l.
Proof.
  induction l as [|x l IH]; simpl; [reflexivity|].
  rewrite insert_sorted_perm. now constructor.
Qed.

Lemma sorted_In (l : list string) (x : string) : In x (sorted l) <-> In x l.
Proof.
  split; apply Permutation_in; [|symmetry]; apply sorted_perm.
Qed.

Lemma insert_sorted_ordered (x : string) (l : list string) :
  StronglySorted le_str l -> StronglySorted le_str (insert_sorted x l).
Proof.
  induction l as [|y l IH]; simpl; intros Hl.
  - repeat constructor.
  - apply StronglySorted_inv in Hl. destruct Hl as [Hl Hy].
    destruct (String.leb x y) eqn:Hxy.
    + constructor; [now constructor|].
      constructor; [exact Hxy|].
      eapply Forall_impl; [|exact Hy].
      intros z Hz. now apply leb_trans with y.
    + constructor; [now apply IH|].
      apply Forall_forall. intros z Hz.
      apply (Permutation_in _ (insert_sorted_perm x l)) in Hz.
      destruct Hz as [<-|Hz].
      * now apply leb_false_ltb.
      * rewrite Forall_forall in Hy. now apply Hy.
Qed.

Lemma sorted_ordered (l : list string) : StronglySorted le_str (sorted l).
Proof.
  induction l as [|x l IH]; simpl; [constructor|].
  now apply insert_sorted_ordered.
Qed.

(** A list in ascending order is the only such arrangement of its elements. *)
Lemma ordered_unique (l1 : list string) :
  forall l2,
    StronglySorted le_str l1 -> StronglySorted le_str l2 ->
    Permutation l1 l2 -> l1 = l2.
Proof.
  induction l1 as [|x l1 IH]; intros l2 H1 H2 HP.
  - apply Permutation_nil in HP. now subst.
  - destruct l2 as [|y l2].
    + symmetry in HP. now apply Permutation_nil in HP.
    + apply StronglySorted_inv in H1. destruct H1 as [H1 Hx].
      apply StronglySorted_inv in H2. destruct H2 as [H2 Hy].
      rewrite Forall_forall in Hx, Hy.
      assert (Hxy : x = y).
      { assert (Ix : In x (y :: l2))
          by (apply (Permutation_in _ HP); now left).
        assert (Iy : In y (x :: l1))
          by (apply (Permutation_in _ (Permutation_sym HP)); now left).
        destruct Ix as [->|Ix]; [reflexivity|].
        destruct Iy as [->|Iy]; [reflexivity|].
        apply String.leb_antisym; [now apply Hx | now apply Hy]. }
      subst y. f_equal.
      apply IH; auto. now apply Permutation_cons_inv with x.
Qed.

Lemma sorted_of_perm (l l' : list string) :
  Permutation l l' -> sorted l = sorted l'.
Proof.
  intros HP. apply ordered_unique; try apply sorted_ordered.
  rewrite !sorted_perm. exact HP.
Qed.

Lemma ordered_strict (l : list string) :
  NoDup l -> StronglySorted le_str l -> StronglySorted lt_str l.
Proof.
  induction l as [|x l IH]; intros Hn Hs; [constructor|].
  apply StronglySorted_inv in Hs. destruct Hs as [Hs Hx].
  inversion Hn as [|? ? Hnx Hn']; subst.
  constructor; [now apply IH|].
  rewrite Forall_forall in *. intros y Hy.
  apply ltb_leb_neq. split; [now apply Hx|].
  intros ->. contradiction.
Qed.

Lemma sorted_strict (l : list string) :
  NoDup l -> StronglySorted lt_str (sorted l).
Proof.
  intros Hn. apply ordered_strict; [|apply sorted_ordered].
  eapply Permutation_NoDup; [|exact Hn]. symmetry. apply sorted_perm.
Qed.

(** ** Dicts *)

Lemma dict_get_set_same {V} (d : dict V) (k : string) (v : V) :
  dict_get (dict_set d k v) k = Some v.
Proof.
  induction d as [|[k' v'] d IH]; simpl.
  - now rewrite String.eqb_refl.
  - destruct (k' =? k) eqn:E; simpl; rewrite E; [reflexivity | exact IH].
Qed.

Lemma dict_get_set_other {V} (d : dict V) (k k' : string) (v : V) :
  k <> k' -> dict_get (dict_set d k v) k' = dict_get d k'.
Proof.
  intros Hne. induction d as [|[k0 v0] d IH]; simpl.
  - apply String.eqb_neq in Hne. now rewrite Hne.
  - destruct (k0 =? k) eqn:E; simpl.
    + apply String.eqb_eq in E. subst k0.
      apply String.eqb_neq in Hne. now rewrite Hne.
    + now rewrite IH.
Qed.

Lemma dict_mem_keys {V} (d : dict V) (k : string) :
  dict_mem d k = true <-> In k (keys d).
Proof.
  unfold dict_mem. induction d as [|[k' v'] d IH]; simpl.
  - split; [discriminate | contradiction].
  - destruct (String.eqb_spec k' k) as [->|Hne].
    + split; auto.
    + rewrite IH. split; auto. intros [H|H]; [contradiction | exact H].
Qed.

Lemma dict_get_keys {V} (d : dict V) (k : string) :
  In k (keys d) -> exists v, dict_get d k = Some v.
Proof.
  intros H. apply dict_mem_keys in H. unfold dict_mem in H.
  destruct (dict_get d k) as [v|]; [now exists v | discriminate].
Qed.

Lemma dict_mem_get {V} (d : dict V) (k : string) (v : V) :
  dict_get d k = Some v -> dict_mem d k = true.
Proof. unfold dict_mem. now intros ->. Qed.

Lemma dict_mem_false_get {V} (d : dict V) (k : string) :
  dict_mem d k = false -> dict_get d k = None.
Proof. unfold dict_mem. now destruct (dict_get d k). Qed.

(** [dict_of]: the value under a key is that of the last pair with it. *)
Lemma dict_of_acc {V} (pairs : list (string * V)) :
  forall (d : dict V) (k : string),
    dict_get (fold_left (fun d kv => dict_set d (fst kv) (snd kv)) pairs d) k
    = match dict_get (rev pairs) k with
      | Some v => Some v
      | None => dict_get d k
      end.
Proof.
  induction pairs as [|[k0 v0] pairs IH]; intros d k; simpl; [reflexivity|].
  rewrite IH. clear IH.
  assert (Happ : forall (l1 l2 : dict V),
             dict_get (l1 ++ l2) k
             = match dict_get l1 k with
               | Some v => Some v
               | None => dict_get l2 k
               end).
  { induction l1 as [|[k1 v1] l1 IHl]; intros l2; simpl; [reflexivity|].
    destruct (k1 =? k); [reflexivity | apply IHl]. }
  rewrite Happ. destruct (dict_get (rev pairs) k); [reflexivity|].
  simpl. destruct (String.eqb_spec k0 k) as [->|Hne].
  - apply dict_get_set_same.
  - now apply dict_get_set_other.
Qed.

Lemma dict_of_last {V} (pairs : list (string * V)) (k : string) :
  dict_get (dict_of pairs) k = dict_get (rev pairs) k.
Proof.
  unfold dict_of. rewrite dict_of_acc. simpl.
  now destruct (dict_get (rev pairs) k).
Qed.

(** With distinct field names, [dict(zip(names, values))] pairs each name
    with the value at the same position. *)
Lemma zip_positional {V} (names : list string) :
  forall (values : list V) (i : nat) (k : string) (v : V),
    NoDup names ->
    nth_error names i = Some k -> nth_error values i = Some v ->
    dict_get (dict_of (zip names values)) k = Some v.
Proof.
  intros values i k v Hnd Hk Hv. rewrite dict_of_last.
  assert (Hin : In (k, v) (zip names values)).
  { revert values i Hk Hv. clear Hnd.
    induction names as [|n names IH]; intros [|x values] [|i] Hk Hv;
      simpl in *; try discriminate.
    - injection Hk as ->. injection Hv as ->. now left.
    - right. eapply IH; eauto. }
  assert (Huniq : forall v', In (k, v') (zip names values) -> v' = v).
  { revert values i Hk Hv Hin. 
    induction Hnd as [|n names Hn Hnd IH]; intros [|x values] i Hk Hv Hin v' H';
      simpl in *; try contradiction.
    destruct Hin as [E|Hin], H' as [E'|H'].
    - congruence.
    - injection E as -> ->. apply in_combine_l in H'. contradiction.
    - injection E' as -> ->. apply in_combine_l in Hin. contradiction.
    - destruct i as [|i]; simpl in *.
      + injection Hk as ->. apply in_combine_l in Hin. contradiction.
      + eapply IH; eauto. }
  apply in_rev in Hin. revert Hin.
  assert (Huniq' : forall v', In (k, v') (rev (zip names values)) -> v' = v)
    by (intros v' H'; apply Huniq; now apply in_rev).
  revert Huniq'. generalize (rev (zip names values)) as l.
  induction l as [|[k1 v1] l IH]; simpl; intros Hu Hin; [contradiction|].
  destruct (String.eqb_spec k1 k) as [->|Hne].
  - f_equal. apply Hu. now left.
  - destruct Hin as [E|Hin]; [congruence|]. apply IH; auto.
Qed.

(** ** The loop of [_poll] *)

Lemma poll_row_other_region (region : string) (metadata : list string)
    (res : LimitMap) (check : FlaggedResource) :
  res_region check <> region -> poll_row region metadata res check = Ok res.
Proof.
  intros Hne. unfold poll_row.
  apply String.eqb_neq in Hne. now rewrite Hne.
Qed.

(** What a retained row with all three fields stores. *)
Lemma poll_row_store (region : string) (metadata : list string)
    (res : LimitMap) (check : FlaggedResource)
    (svc lim amount : string) (value : Z) :
  res_region check = region ->
  dict_get (row_data metadata check) "Service" = Some svc ->
  dict_get (row_data metadata check) "Limit Name" = Some lim ->
  dict_get (row_data metadata check) "Limit Amount" = Some amount ->
  int amount = Ok value ->
  exists res',
    poll_row region metadata res check = Ok res' /\
    get2 res' svc lim = Some value /\
    (forall s l, s <> svc \/ l <> lim -> get2 res' s l = get2 res s l).
Proof.
  intros Hreg Hsvc Hlim Hamt Hint. unfold poll_row, getitem.
  rewrite Hreg, String.eqb_refl. simpl.
  rewrite Hsvc, Hamt, Hint, Hlim.
  set (res1 := if negb (dict_mem res svc) then dict_set res svc [] else res).
  assert (H1 : exists limits,
             dict_get res1 svc = Some limits /\
             forall l, dict_get limits l = get2 res svc l).
  { unfold res1, get2, dict_mem.
    destruct (dict_get res svc) as [limits|] eqn:E; simpl.
    - exists limits. now rewrite E.
    - exists []. now rewrite dict_get_set_same. }
  assert (H2 : forall s, s <> svc -> dict_get res1 s = dict_get res s).
  { intros s Hs. unfold res1. destruct (negb (dict_mem res svc)); auto.
    apply dict_get_set_other. congruence. }
  destruct H1 as (limits & Hl & Hget). rewrite Hl.
  eexists. split; [reflexivity|]. split.
  - unfold get2. rewrite dict_get_set_same. apply dict_get_set_same.
  - intros s l Hsl. unfold get2 at 1.
    destruct (String.eqb_spec s svc) as [->|Hs].
    + rewrite dict_get_set_same.
      destruct Hsl as [Hs|Hl']; [congruence|].
      rewrite dict_get_set_other by congruence. apply Hget.
    + rewrite dict_get_set_other by congruence.
      rewrite H2 by exact Hs. reflexivity.
Qed.

(** A retained row that does not raise had all three fields. *)
Lemma poll_row_retained_inv (region : string) (metadata : list string)
    (res res' : LimitMap) (check : FlaggedResource) :
  res_region check = region ->
  poll_row region metadata res check = Ok res' ->
  exists svc lim amount value,
    dict_get (row_data metadata check) "Service" = Some svc /\
    dict_get (row_data metadata check) "Limit Name" = Some lim /\
    dict_get (row_data metadata check) "Limit Amount" = Some amount /\
    int amount = Ok value.
Proof.
  intros Hreg. unfold poll_row, getitem.
  rewrite Hreg, String.eqb_refl. simpl.
  destruct (dict_get (row_data metadata check) "Service") as [svc|];
    [|discriminate].
  destruct (dict_get (row_data metadata check) "Limit Amount") as [amount|];
    [|discriminate].
  destruct (int amount) as [value|] eqn:Hint; [|discriminate].
  match goal with
  | |- context [dict_get ?r svc] => destruct (dict_get r svc); [|discriminate]
  end.
  destruct (dict_get (row_data metadata check) "Limit Name") as [lim|];
    [|discriminate].
  intros _. now exists svc, lim, amount, value.
Qed.

Lemma poll_rows_app (region : string) (metadata : list string)
    (rows1 rows2 : list FlaggedResource) :
  forall res,
    poll_rows region metadata (rows1 ++ rows2) res
    = match poll_rows region metadata rows1 res with
      | Ok res' => poll_rows region metadata rows2 res'
      | Raise e => Raise e
      end.
Proof.
  induction rows1 as [|r rows1 IH]; intros res; simpl; [reflexivity|].
  destruct (poll_row region metadata res r); [apply IH | reflexivity].
Qed.

(** Rows that do not name the pair leave its value alone. *)
Lemma poll_rows_keep (region : string) (metadata : list string)
    (svc lim : string) (rows : list FlaggedResource) :
  forall res res',
    (forall r, In r rows -> ~ row_targets region metadata svc lim r) ->
    poll_rows region metadata rows res = Ok res' ->
    get2 res' svc lim = get2 res svc lim.
Proof.
  induction rows as [|r rows IH]; intros res res' Hno Hrun; simpl in Hrun.
  - now injection Hrun as ->.
  - destruct (poll_row region metadata res r) as [res1|] eqn:Hrow;
      [|discriminate].
    rewrite (IH res1 res') by (auto using in_cons).
    destruct (String.eqb_spec (res_region r) region) as [Hreg|Hreg].
    + destruct (poll_row_retained_inv _ _ _ _ _ Hreg Hrow)
        as (s & l & a & v & Hs & Hl & Ha & Hv).
      destruct (poll_row_store _ _ res _ _ _ _ _ Hreg Hs Hl Ha Hv)
        as (res2 & Hrow2 & _ & Hkeep).
      rewrite Hrow in Hrow2. injection Hrow2 as <-.
      apply Hkeep.
      destruct (String.eqb_spec svc s) as [->|]; [|now left].
      destruct (String.eqb_spec lim l) as [->|]; [|now right].
      exfalso. apply (Hno r); [now left|]. now repeat split.
    + rewrite poll_row_other_region in Hrow by exact Hreg.
      now injection Hrow as ->.
Qed.

(** ** The check locator *)

Lemma is_limit_check_iff (check : Check) :
  is_limit_check check = true <->
  check_category check = "performance" /\ check_name check = "Service Limits".
Proof.
  unfold is_limit_check. rewrite andb_true_iff, !String.eqb_eq. reflexivity.
Qed.

Lemma find_limit_check_first (pre : list Check) (check : Check)
    (post : list Check) (w : World) :
  Forall (fun x => is_limit_check x = false) pre ->
  is_limit_check check = true ->
  find_limit_check (pre ++ check :: post) w
  = (Ok (Some (check_id check, check_metadata check)),
     emit DEBUG ("Found TA check; id=" ++ check_id check) w).
Proof.
  intros Hpre Hc. induction Hpre as [|x pre Hx _ IH]; simpl.
  - now rewrite Hc.
  - now rewrite Hx.
Qed.

Lemma find_limit_check_none (checks : list Check) (w : World) :
  Forall (fun x => is_limit_check x = false) checks ->
  find_limit_check checks w = (Ok None, w).
Proof.
  intros H. induction H as [|x checks Hx _ IH]; simpl; [reflexivity|].
  now rewrite Hx.
Qed.

(** The locator only writes to the log. *)
Lemma find_limit_check_frame (checks : list Check) (w : World) :
  conn (snd (find_limit_check checks w)) = conn w /\
  store (snd (find_limit_check checks w)) = store w /\
  support_connects (snd (find_limit_check checks w)) = support_connects w.
Proof.
  induction checks as [|x checks IH]; simpl; [auto|].
  destruct (is_limit_check x); [simpl; auto | exact IH].
Qed.

Lemma _get_limit_check_id_frame (w : World) :
  conn (snd (_get_limit_check_id w)) = conn w /\
  store (snd (_get_limit_check_id w)) = store w /\
  support_connects (snd (_get_limit_check_id w)) = support_connects w.
Proof.
  unfold _get_limit_check_id, bind, logger, conn_attr, self_conn, bind, lift,
    ret, raise. simpl.
  destruct (conn w) as [c|] eqn:Hc; simpl; [|auto].
  destruct (describe_trusted_advisor_checks c "en") as [checks|]; simpl;
    [|auto].
  pose proof (find_limit_check_frame checks
                (emit DEBUG "Querying Trusted Advisor checks" w)) as H.
  destruct (find_limit_check checks _) as [[[r|]|e] w1]; simpl in *;
    rewrite Hc in H; exact H.
Qed.

Lemma not_limit_checks (checks : list Check) :
  (forall x, In x checks ->
     ~ (check_category x = "performance" /\ check_name x = "Service Limits")) ->
  Forall (fun x => is_limit_check x = false) checks.
Proof.
  intros H. apply Forall_forall. intros x Hx.
  destruct (is_limit_check x) eqn:E; [|reflexivity].
  apply is_limit_check_iff in E. now apply H in E.
Qed.

Lemma _get_limit_check_id_found (w : World) (c : Connection)
    (pre : list Check) (check : Check) (post : list Check) :
  conn w = Some c ->
  describe_trusted_advisor_checks c "en" = Ok (pre ++ check :: post) ->
  Forall (fun x => is_limit_check x = false) pre ->
  is_limit_check check = true ->
  _get_limit_check_id w
  = (Ok (Some (check_id check, check_metadata check)),
     emit DEBUG ("Found TA check; id=" ++ check_id check)
       (emit DEBUG "Querying Trusted Advisor checks" w)).
Proof.
  intros Hc Hd Hpre Hchk.
  unfold _get_limit_check_id, bind, logger, conn_attr, self_conn, bind, lift,
    ret. simpl.
  rewrite Hc, Hd. now rewrite find_limit_check_first.
Qed.

Lemma _get_limit_check_id_absent (w : World) (c : Connection)
    (checks : list Check) :
  conn w = Some c ->
  describe_trusted_advisor_checks c "en" = Ok checks ->
  Forall (fun x => is_limit_check x = false) checks ->
  _get_limit_check_id w
  = (Ok None,
     emit DEBUG ("Unable to find check with category 'performance' and "
                 ++ "name 'Service Limits'.")
       (emit DEBUG "Querying Trusted Advisor checks" w)).
Proof.
  intros Hc Hd Hno.
  unfold _get_limit_check_id, bind, logger, conn_attr, self_conn, bind, lift,
    ret. simpl.
  rewrite Hc, Hd. now rewrite find_limit_check_none.
Qed.

(** C2: for every list of available checks, the locator returns the id and
    the metadata field list of the first check, in list order, whose
    category is "performance" and whose name is "Service Limits" (string
    equality, so case matters), wherever it stands in the list; when no
    check satisfies both equalities it returns [None]. *)
Theorem locator_returns_first_match (w : World) (c : Connection)
    (checks : list Check) :
  conn w = Some c ->
  describe_trusted_advisor_checks c "en" = Ok checks ->
  (forall pre check post,
      checks = pre ++ check :: post ->
      (forall x, In x pre ->
         ~ (check_category x = "performance"
            /\ check_name x = "Service Limits")) ->
      check_category check = "performance" ->
      check_name check = "Service Limits" ->
      fst (_get_limit_check_id w)
      = Ok (Some (check_id check, check_metadata check)))
  /\ ((forall x, In x checks ->
         ~ (check_category x = "performance"
            /\ check_name x = "Service Limits")) ->
      fst (_get_limit_check_id w) = Ok None).
Proof.
  intros Hc Hd. split.
  - intros pre check post -> Hpre Hcat Hname.
    rewrite (_get_limit_check_id_found w c pre check post Hc Hd);
      [reflexivity | now apply not_limit_checks |].
    apply is_limit_check_iff. now split.
  - intros Hno.
    rewrite (_get_limit_check_id_absent w c checks Hc Hd);
      [reflexivity | now apply not_limit_checks].
Qed.

(** ** [_poll] *)

(** When the check is found and the result is fetched, [_poll] returns what
    the loop over the flagged resources builds from the empty dict, with the
    region of the connection and the field names of the check. *)
Lemma _poll_found (w : World) (c : Connection) (pre : list Check)
    (check : Check) (post : list Check) (cr : CheckResult) (dt : string) :
  conn w = Some c ->
  describe_trusted_advisor_checks c "en" = Ok (pre ++ check :: post) ->
  Forall (fun x => is_limit_check x = false) pre ->
  is_limit_check check = true ->
  describe_trusted_advisor_check_result c (check_id check) = Ok cr ->
  parser_parse (timestamp cr) = Ok dt ->
  fst (_poll w)
  = match poll_rows (region_name c) (check_metadata check)
            (flaggedResources cr) [] with
    | Ok res => Ok (Some res)
    | Raise e => Raise e
    end.
Proof.
  intros Hc Hd Hpre Hchk Hr Ht.
  unfold _poll, bind at 1 2. unfold logger at 1.
  rewrite (_get_limit_check_id_found _ c pre check post) by assumption.
  unfold bind, conn_attr, self_conn, bind, lift, ret, logger. simpl.
  repeat (rewrite Hc; simpl). rewrite Hr, Ht.
  now destruct (poll_rows _ _ _ _).
Qed.

(** The same run with its log: five records, whatever the rows are. *)
Lemma _poll_found_run (w : World) (c : Connection) (pre : list Check)
    (check : Check) (post : list Check) (cr : CheckResult) (dt : string)
    (res : LimitMap) :
  conn w = Some c ->
  describe_trusted_advisor_checks c "en" = Ok (pre ++ check :: post) ->
  Forall (fun x => is_limit_check x = false) pre ->
  is_limit_check check = true ->
  describe_trusted_advisor_check_result c (check_id check) = Ok cr ->
  parser_parse (timestamp cr) = Ok dt ->
  poll_rows (region_name c) (check_metadata check) (flaggedResources cr) []
  = Ok res ->
  _poll w
  = (Ok (Some res),
     emit INFO "Finished TrustedAdvisor poll"
       (emit DEBUG ("Got TrustedAdvisor data for check " ++ check_id check
                    ++ " as of " ++ dt)
          (emit DEBUG ("Found TA check; id=" ++ check_id check)
             (emit DEBUG "Querying Trusted Advisor checks"
                (emit INFO "Beginning TrustedAdvisor poll" w))))).
Proof.
  intros Hc Hd Hpre Hchk Hr Ht Hrows.
  unfold _poll, bind at 1 2. unfold logger at 1.
  rewrite (_get_limit_check_id_found _ c pre check post) by assumption.
  unfold bind, conn_attr, self_conn, bind, lift, ret, logger. simpl.
  repeat (rewrite Hc; simpl). rewrite Hr, Ht, Hrows. reflexivity.
Qed.

Lemma poll_rows_filter (region : string) (metadata : list string)
    (rows : list FlaggedResource) :
  forall res,
    poll_rows region metadata rows res
    = poll_rows region metadata
        (filter (fun r => res_region r =? region) rows) res.
Proof.
  induction rows as [|r rows IH]; intros res; simpl; [reflexivity|].
  destruct (String.eqb_spec (res_region r) region) as [Hreg|Hreg]; simpl.
  - destruct (poll_row region metadata res r); [apply IH | reflexivity].
  - rewrite poll_row_other_region by exact Hreg. apply IH.
Qed.

(** C3: the map returned by [_poll] is built from the flagged resources
    whose region equals the region of the session and from no other: rows of
    another region can be dropped from the API answer without changing the
    result, and each such row leaves the map under construction as it is. *)
Theorem poll_keeps_session_region_only (w : World) (c : Connection)
    (pre : list Check) (check : Check) (post : list Check)
    (cr : CheckResult) (dt : string) :
  conn w = Some c ->
  describe_trusted_advisor_checks c "en" = Ok (pre ++ check :: post) ->
  Forall (fun x => is_limit_check x = false) pre ->
  is_limit_check check = true ->
  describe_trusted_advisor_check_result c (check_id check) = Ok cr ->
  parser_parse (timestamp cr) = Ok dt ->
  fst (_poll w)
  = match poll_rows (region_name c) (check_metadata check)
            (filter (fun r => res_region r =? region_name c)
                    (flaggedResources cr)) [] with
    | Ok res => Ok (Some res)
    | Raise e => Raise e
    end
  /\ (forall res row,
        res_region row <> region_name c ->
        poll_row (region_name c) (check_metadata check) res row = Ok res)
  /\ (forall res rows,
        poll_rows (region_name c) (check_metadata check) rows res
        = poll_rows (region_name c) (check_metadata check)
            (filter (fun r => res_region r =? region_name c) rows) res).
Proof.
  intros Hc Hd Hpre Hchk Hr Ht. split; [|split].
  - rewrite (_poll_found w c pre check post cr dt) by assumption.
    now rewrite poll_rows_filter.
  - intros res row Hne. now apply poll_row_other_region.
  - intros res rows. apply poll_rows_filter.
Qed.

(** C4: a retained row is read through [dict(zip(metadata, values))], which
    with distinct field names pairs every name with the value at the same
    position; the row is stored under the values of "Service" and
    "Limit Name", and the stored value is the integer that "Limit Amount"
    parses to; every other entry of the map is left as it was. *)
Theorem poll_row_projection (region : string) (metadata : list string)
    (res : LimitMap) (check : FlaggedResource)
    (svc lim amount : string) (value : Z) :
  res_region check = region ->
  dict_get (row_data metadata check) "Service" = Some svc ->
  dict_get (row_data metadata check) "Limit Name" = Some lim ->
  dict_get (row_data metadata check) "Limit Amount" = Some amount ->
  int amount = Ok value ->
  (forall i field v,
      NoDup metadata ->
      nth_error metadata i = Some field ->
      nth_error (res_metadata check) i = Some v ->
      dict_get (row_data metadata check) field = Some v)
  /\ exists res',
      poll_row region metadata res check = Ok res' /\
      get2 res' svc lim = Some value /\
      (forall s l, s <> svc \/ l <> lim -> get2 res' s l = get2 res s l).
Proof.
  intros Hreg Hsvc Hlim Hamt Hint. split.
  - intros i field v Hnd Hf Hv. unfold row_data.
    now apply zip_positional with i.
  - now apply poll_row_store with amount.
Qed.

(** C9: when several retained rows name the same service and limit, the map
    built by the loop holds, for that pair, the value of the last of them,
    whatever the rows before it stored.  Nothing marks the overwrite: the
    loop returns the map and nothing else, and a [_poll] over such rows
    emits its five usual records, none of them a warning. *)
Theorem poll_last_write_wins (region : string) (metadata : list string)
    (pre : list FlaggedResource) (row : FlaggedResource)
    (post : list FlaggedResource) (res0 res : LimitMap)
    (svc lim amount : string) (value : Z) :
  poll_rows region metadata (pre ++ row :: post) res0 = Ok res ->
  row_targets region metadata svc lim row ->
  dict_get (row_data metadata row) "Limit Amount" = Some amount ->
  int amount = Ok value ->
  (forall r, In r post -> ~ row_targets region metadata svc lim r) ->
  get2 res svc lim = Some value
  /\ (forall w c checks_before check checks_after cr dt,
        conn w = Some c ->
        describe_trusted_advisor_checks c "en"
        = Ok (checks_before ++ check :: checks_after) ->
        Forall (fun x => is_limit_check x = false) checks_before ->
        is_limit_check check = true ->
        describe_trusted_advisor_check_result c (check_id check) = Ok cr ->
        parser_parse (timestamp cr) = Ok dt ->
        region_name c = region -> check_metadata check = metadata ->
        flaggedResources cr = pre ++ row :: post -> res0 = [] ->
        fst (_poll w) = Ok (Some res)
        /\ log (snd (_poll w))
           = log w
             ++ [(INFO, "Beginning TrustedAdvisor poll");
                 (DEBUG, "Querying Trusted Advisor checks");
                 (DEBUG, ("Found TA check; id=" ++ check_id check)%string);
                 (DEBUG, ("Got TrustedAdvisor data for check "
                          ++ check_id check ++ " as of " ++ dt)%string);
                 (INFO, "Finished TrustedAdvisor poll")]).
Proof.
  intros Hrun (Hreg & Hsvc & Hlim) Hamt Hint Hlast. split.
  - rewrite poll_rows_app in Hrun.
    destruct (poll_rows region metadata pre res0) as [res1|]; [|discriminate].
    simpl in Hrun.
    destruct (poll_row_store region metadata res1 row svc lim amount value)
      as (res2 & Hrow & Hget & _); try assumption.
    rewrite Hrow in Hrun.
    rewrite (poll_rows_keep region metadata svc lim post res2 res Hlast Hrun).
    exact Hget.
  - intros w c cb check ca cr dt Hc Hd Hpre Hchk Hr Ht <- <- Hrows ->.
    rewrite <- Hrows in Hrun.
    rewrite (_poll_found_run w c cb check ca cr dt res) by assumption.
    split; [reflexivity|]. simpl. now rewrite <- !app_assoc.
Qed.

(** ** [connect] *)

Lemma connect_connected (w : World) (c : Connection) :
  conn w = Some c -> connect w = (Ok tt, w).
Proof.
  intros Hc. unfold connect, bind, self_conn. simpl. now rewrite Hc.
Qed.

Lemma connect_twice (w : World) : (connect ;; connect) w = connect w.
Proof.
  unfold bind at 1.
  destruct (connect w) as [[[]|e] w'] eqn:E; [|reflexivity].
  assert (Hc : exists c, conn w' = Some c).
  { revert E. unfold connect, bind, self_conn, logger, boto_connect_support,
      set_conn, ret. simpl.
    destruct (conn w) as [c|] eqn:Hc.
    - intros [= <-]. now exists c.
    - destruct connect_support as [c|]; [|discriminate].
      intros [= <-]. now exists c. }
  destruct Hc as [c Hc]. now apply connect_connected with c.
Qed.

Lemma connect_counts (w : World) :
  support_connects (snd (connect w))
  = match conn w with
    | None => S (support_connects w)
    | Some _ => support_connects w
    end.
Proof.
  unfold connect, bind, self_conn, logger, boto_connect_support, set_conn, ret.
  simpl. destruct (conn w); [reflexivity|].
  now destruct connect_support.
Qed.

(** C5: [connect] is idempotent.  On an object as [__init__] leaves it, two
    calls of [connect] in a row make exactly one call of
    [boto.connect_support]; from any state, two calls in a row end in the
    state one call ends in, the second call never connecting; and with a
    connection present [connect] changes nothing at all. *)
Theorem connect_idempotent (w : World) :
  support_connects (snd ((connect ;; connect) (__init__ w)))
  = S (support_connects w)
  /\ (connect ;; connect) w = connect w
  /\ support_connects (snd ((connect ;; connect) w))
     = support_connects (snd (connect w))
  /\ (forall c, conn w = Some c -> connect w = (Ok tt, w)).
Proof.
  split; [|split; [|split]].
  - rewrite connect_twice, connect_counts. reflexivity.
  - apply connect_twice.
  - now rewrite connect_twice.
  - intros c. apply connect_connected.
Qed.

(** ** The loops of [_update_services] as one list of steps *)

Lemma for_each_app {A} (xs ys : list A) (body : A -> M unit) :
  forall w,
    for_each (xs ++ ys) body w = (for_each xs body ;; for_each ys body) w.
Proof.
  induction xs as [|x xs IH]; intros w; simpl; [reflexivity|].
  unfold bind in *.
  destruct (body x w) as [[[]|e] w']; [apply IH | reflexivity].
Qed.

Lemma update_limit_step (svc_name : string) (service : ref)
    (limits : dict Z) (lim_name : string) (value : Z) (w : World) :
  dict_get limits lim_name = Some value ->
  update_limit svc_name service limits lim_name w
  = do_action (Attempt svc_name service lim_name value) w.
Proof.
  intros Hv. unfold update_limit, do_action, try_except_ValueError, bind,
    lift, getitem.
  now rewrite Hv.
Qed.

Lemma inner_loop_steps (svc_name : string) (service : ref)
    (limits : dict Z) (names : list string) :
  (forall k, In k names -> In k (keys limits)) ->
  forall w,
    for_each names (update_limit svc_name service limits) w
    = for_each (limit_steps svc_name service limits names) do_action w.
Proof.
  induction names as [|k names IH]; intros Hin w; [reflexivity|].
  destruct (dict_get_keys limits k) as [v Hv]; [apply Hin; now left|].
  assert (Hs : limit_steps svc_name service limits (k :: names)
               = Attempt svc_name service k v
                 :: limit_steps svc_name service limits names)
    by (unfold limit_steps; simpl; now rewrite Hv).
  rewrite Hs. cbn [for_each]. unfold bind.
  rewrite (update_limit_step _ _ _ _ v) by exact Hv.
  destruct (do_action (Attempt svc_name service k v) w) as [[[]|e] w'];
    [|reflexivity].
  apply IH. auto using in_cons.
Qed.

Lemma update_service_steps (ta_results : LimitMap) (services : dict ref)
    (svc_name : string) (w : World) :
  In svc_name (keys ta_results) ->
  update_service ta_results services svc_name w
  = for_each (service_steps ta_results services svc_name) do_action w.
Proof.
  intros Hin. destruct (dict_get_keys _ _ Hin) as [limits Hl].
  unfold update_service, service_steps, bind at 1, lift, getitem, dict_mem.
  rewrite Hl.
  destruct (dict_get services svc_name) as [service|]; simpl.
  - unfold bind at 1. apply inner_loop_steps.
    intros k. apply sorted_In.
  - reflexivity.
Qed.

Lemma outer_loop_steps (ta_results : LimitMap) (services : dict ref)
    (names : list string) :
  (forall k, In k names -> In k (keys ta_results)) ->
  forall w,
    for_each names (update_service ta_results services) w
    = for_each (flat_map (service_steps ta_results services) names)
        do_action w.
Proof.
  induction names as [|k names IH]; intros Hin w; [reflexivity|].
  cbn [for_each flat_map]. rewrite for_each_app. unfold bind.
  rewrite update_service_steps by (apply Hin; now left).
  destruct (for_each (service_steps ta_results services k) do_action w)
    as [[[]|e] w']; [|reflexivity].
  apply IH. auto using in_cons.
Qed.

(** [_update_services] on a dict runs the steps of [plan], in that order,
    between its two log records. *)
Lemma _update_services_steps (ta_results : LimitMap) (services : dict ref)
    (w : World) :
  _update_services (Some ta_results) services w
  = (logger DEBUG "Updating TA limits on all services" ;;
     for_each (plan ta_results services) do_action ;;
     logger INFO "Done updating TA limits on all services") w.
Proof.
  unfold _update_services, plan, bind, logger.
  rewrite outer_loop_steps; [reflexivity|].
  intros k. apply sorted_In.
Qed.

Lemma do_attempt_cases (svc_name : string) (service : ref)
    (lim_name : string) (value : Z) (w : World) :
  do_action (Attempt svc_name service lim_name value) w
  = match snd (set_ta_limit (store w service) lim_name value) with
    | None => (Ok tt, called service lim_name value w)
    | Some e =>
        if is_ValueError e then
          (Ok tt, emit WARNING (unknown_limit_msg lim_name svc_name)
                    (called service lim_name value w))
        else (Raise e, called service lim_name value w)
    end.
Proof.
  unfold do_action, try_except_ValueError, _set_ta_limit, called, logger.
  destruct (snd (set_ta_limit (store w service) lim_name value)) as [e|];
    [|reflexivity].
  now destruct (is_ValueError e).
Qed.

Lemma do_action_total (a : action) (w : World) :
  raises_only_ValueError -> do_action a w = (Ok tt, apply_action w a).
Proof.
  intros Hve. destruct a as [svc|svc r lim v]; [reflexivity|].
  rewrite do_attempt_cases. unfold apply_action.
  destruct (snd (set_ta_limit (store w r) lim v)) as [e|] eqn:E;
    [|reflexivity].
  now rewrite (Hve _ _ _ _ E).
Qed.

Lemma steps_total (acts : list action) :
  raises_only_ValueError ->
  forall w, for_each acts do_action w = (Ok tt, fold_left apply_action acts w).
Proof.
  intros Hve. induction acts as [|a acts IH]; intros w; [reflexivity|].
  cbn [for_each fold_left]. unfold bind.
  rewrite do_action_total by exact Hve. apply IH.
Qed.

Lemma _update_services_total (ta_results : LimitMap) (services : dict ref)
    (w : World) :
  raises_only_ValueError ->
  _update_services (Some ta_results) services w
  = (Ok tt,
     emit INFO "Done updating TA limits on all services"
       (fold_left apply_action (plan ta_results services)
          (emit DEBUG "Updating TA limits on all services" w))).
Proof.
  intros Hve. rewrite _update_services_steps. unfold bind, logger.
  now rewrite steps_total.
Qed.

(** No step lets a [ValueError] out. *)
Lemma do_action_no_ValueError (a : action) (w w' : World) (e : exn) :
  do_action a w = (Raise e, w') -> is_ValueError e = false.
Proof.
  destruct a as [svc|svc r lim v]; [discriminate|].
  rewrite do_attempt_cases.
  destruct (snd (set_ta_limit (store w r) lim v)) as [e0|]; [|discriminate].
  destruct (is_ValueError e0) eqn:E; [discriminate|].
  now intros [= <- _].
Qed.

Lemma steps_no_ValueError (acts : list action) :
  forall w w' e,
    for_each acts do_action w = (Raise e, w') -> is_ValueError e = false.
Proof.
  induction acts as [|a acts IH]; intros w w' e; [discriminate|].
  cbn [for_each]. unfold bind.
  destruct (do_action a w) as [[[]|e0] w0] eqn:E.
  - apply IH.
  - intros [= <- _]. now apply do_action_no_ValueError in E.
Qed.

Lemma _update_services_no_ValueError (ta_results : option LimitMap)
    (services : dict ref) (w w' : World) (e : exn) :
  _update_services ta_results services w = (Raise e, w') ->
  is_ValueError e = false.
Proof.
  destruct ta_results as [d|].
  - rewrite _update_services_steps. unfold bind, logger.
    destruct (for_each _ do_action _) as [[[]|e0] w0] eqn:E; [discriminate|].
    intros [= <- _]. now apply steps_no_ValueError in E.
  - unfold _update_services, bind, logger, raise. now intros [= <- _].
Qed.

(** ** What is in the plan *)

Lemma limit_steps_In (svc_name : string) (service : ref) (limits : dict Z)
    (names : list string) (a : action) :
  In a (limit_steps svc_name service limits names) <->
  exists lim value,
    In lim names /\ dict_get limits lim = Some value /\
    a = Attempt svc_name service lim value.
Proof.
  unfold limit_steps. rewrite in_flat_map. split.
  - intros (lim & Hin & Ha).
    destruct (dict_get limits lim) as [v|] eqn:E; [|contradiction].
    destruct Ha as [<-|[]]. now exists lim, v.
  - intros (lim & v & Hin & Hv & ->). exists lim. split; [exact Hin|].
    rewrite Hv. now left.
Qed.

Lemma plan_In (ta_results : LimitMap) (services : dict ref) (a : action) :
  In a (plan ta_results services) <->
  match a with
  | Unknown svc_name =>
      In svc_name (keys ta_results) /\ dict_mem services svc_name = false
  | Attempt svc_name service lim_name value =>
      dict_get services svc_name = Some service /\
      get2 ta_results svc_name lim_name = Some value
  end.
Proof.
  unfold plan. rewrite in_flat_map. split.
  - intros (svc & Hin & Ha). apply (proj1 (sorted_In _ _)) in Hin.
    unfold service_steps in Ha.
    destruct (dict_get ta_results svc) as [limits|] eqn:El; [|contradiction].
    destruct (dict_get services svc) as [r|] eqn:Er.
    + apply limit_steps_In in Ha. destruct Ha as (lim & v & _ & Hv & ->).
      unfold get2. now rewrite El.
    + destruct Ha as [<-|[]]. split; [exact Hin|].
      unfold dict_mem. now rewrite Er.
  - destruct a as [svc|svc r lim v].
    + intros [Hin Hm]. exists svc. split; [now apply sorted_In|].
      destruct (dict_get_keys _ _ Hin) as [limits Hl].
      unfold service_steps. rewrite Hl, (dict_mem_false_get _ _ Hm).
      now left.
    + intros [Hr Hv]. unfold get2 in Hv.
      destruct (dict_get ta_results svc) as [limits|] eqn:El; [|discriminate].
      exists svc. split.
      * apply sorted_In, dict_mem_keys. now apply dict_mem_get with limits.
      * unfold service_steps. rewrite El, Hr. apply limit_steps_In.
        exists lim, v. repeat split; [|exact Hv].
        apply sorted_In, dict_mem_keys. now apply dict_mem_get with v.
Qed.

(** ** The log and the store after the steps *)

Lemma apply_action_log (a : action) (w : World) :
  exists records, log (apply_action w a) = log w ++ records.
Proof.
  destruct a as [svc|svc r lim v]; simpl.
  - eexists. reflexivity.
  - destruct (snd (set_ta_limit (store w r) lim v)); simpl.
    + eexists. reflexivity.
    + exists []. now rewrite app_nil_r.
Qed.

Lemma steps_log (acts : list action) :
  forall w, exists records,
    log (fold_left apply_action acts w) = log w ++ records.
Proof.
  induction acts as [|a acts IH]; intros w; simpl.
  - exists []. now rewrite app_nil_r.
  - destruct (IH (apply_action w a)) as [rs Hrs].
    destruct (apply_action_log a w) as [rs0 Hrs0].
    exists (rs0 ++ rs). now rewrite Hrs, Hrs0, app_assoc.
Qed.

Lemma steps_log_unknown (acts : list action) (svc_name : string) :
  forall w,
    In (Unknown svc_name) acts ->
    In (CRITICAL, unknown_service_msg svc_name)
       (log (fold_left apply_action acts w)).
Proof.
  induction acts as [|a acts IH]; intros w Hin; [contradiction|].
  simpl. destruct Hin as [->|Hin]; [|now apply IH].
  destruct (steps_log acts (apply_action w (Unknown svc_name))) as [rs ->].
  simpl. rewrite in_app_iff. left. rewrite in_app_iff. right. now left.
Qed.

Lemma steps_store (acts : list action) (r : ref) :
  forall w,
    store (fold_left apply_action acts w) r
    = fold_left (step_on r) acts (store w r).
Proof.
  induction acts as [|a acts IH]; intros w; [reflexivity|].
  cbn [fold_left]. rewrite IH. f_equal.
  destruct a as [svc|svc r' lim v]; [reflexivity|].
  assert (H : store (called r' lim v w) r
              = step_on r (store w r) (Attempt svc r' lim v)).
  { unfold called, store_after, store_set, step_on. simpl.
    destruct (Nat.eqb_spec r r') as [->|]; reflexivity. }
  unfold apply_action.
  destruct (snd (set_ta_limit (store w r') lim v)); exact H.
Qed.

Lemma fold_step_other (r : ref) (acts : list action) (s : Service) :
  (forall svc r' lim v, In (Attempt svc r' lim v) acts -> r' <> r) ->
  fold_left (step_on r) acts s = s.
Proof.
  induction acts as [|a acts IH]; intros Hne; [reflexivity|].
  cbn [fold_left].
  assert (Ha : step_on r s a = s).
  { destruct a as [svc|svc r' lim v]; [reflexivity|]. simpl.
    destruct (Nat.eqb_spec r r') as [->|]; [|reflexivity].
    exfalso. apply (Hne svc r' lim v); [now left | reflexivity]. }
  rewrite Ha. apply IH. intros svc r' lim v Hin.
  apply (Hne svc r' lim v). now right.
Qed.

Lemma fold_step_limit_steps (svc_name : string) (r : ref)
    (limits : dict Z) (names : list string) :
  forall s,
    fold_left (step_on r) (limit_steps svc_name r limits names) s
    = service_after s
        (flat_map (fun lim_name =>
                     match dict_get limits lim_name with
                     | Some value => [(lim_name, value)]
                     | None => []
                     end) names).
Proof.
  unfold limit_steps, service_after.
  induction names as [|k names IH]; intros s; [reflexivity|].
  cbn [flat_map]. rewrite !fold_left_app, IH. f_equal.
  destruct (dict_get limits k) as [v|]; [|reflexivity].
  simpl. now rewrite Nat.eqb_refl.
Qed.

Lemma service_steps_refs (ta_results : LimitMap) (services : dict ref)
    (svc_name svc : string) (r : ref) (lim : string) (v : Z) :
  In (Attempt svc r lim v) (service_steps ta_results services svc_name) ->
  svc = svc_name /\ dict_get services svc_name = Some r.
Proof.
  unfold service_steps.
  destruct (dict_get ta_results svc_name) as [limits|]; [|contradiction].
  destruct (dict_get services svc_name) as [r0|].
  - intros H. apply limit_steps_In in H.
    destruct H as (lim0 & v0 & _ & _ & [= -> -> _ _]). now split.
  - intros [H|[]]. discriminate.
Qed.

(** A known service that shares its object with no other name receives the
    calls for its own limits, in sorted order, and no other call. *)
Lemma plan_on_service (ta_results : LimitMap) (services : dict ref)
    (svc_name : string) (r : ref) (limits : dict Z) (s : Service) :
  unique_keys ta_results ->
  dict_get ta_results svc_name = Some limits ->
  dict_get services svc_name = Some r ->
  (forall svc', dict_get services svc' = Some r -> svc' = svc_name) ->
  fold_left (step_on r) (plan ta_results services) s
  = service_after s (sorted_items limits).
Proof.
  intros Hu Hl Hr Hown.
  assert (Hnd : NoDup (sorted (keys ta_results))).
  { eapply Permutation_NoDup; [|exact Hu]. symmetry. apply sorted_perm. }
  assert (Hin : In svc_name (sorted (keys ta_results))).
  { apply sorted_In, dict_mem_keys. now apply dict_mem_get with limits. }
  destruct (in_split _ _ Hin) as (l1 & l2 & Hsplit).
  unfold plan. rewrite Hsplit in *. apply NoDup_remove_2 in Hnd.
  assert (Hother : forall names,
             ~ In svc_name names ->
             fold_left (step_on r)
               (flat_map (service_steps ta_results services) names) s = s).
  { intros names Hnot. apply fold_step_other.
    intros svc r' lim v H. apply in_flat_map in H.
    destruct H as (svc' & Hin' & H).
    apply service_steps_refs in H. destruct H as [-> Hr'].
    intros ->. apply Hown in Hr'. now subst. }
  rewrite flat_map_app. cbn [flat_map].
  rewrite !fold_left_app.
  rewrite Hother by (intros H; apply Hnd, in_or_app; now left).
  unfold service_steps at 2. rewrite Hl, Hr.
  rewrite fold_step_limit_steps. fold (sorted_items limits).
  apply fold_step_other.
  intros svc r' lim v H. apply in_flat_map in H.
  destruct H as (svc' & Hin' & H).
  apply service_steps_refs in H. destruct H as [-> Hr'].
  intros ->. apply Hown in Hr'. subst.
  apply Hnd, in_or_app. now right.
Qed.

(** C6: a service name of the map that the registry does not have gets a
    critical record naming it and no call at all, nothing is raised, and
    every service the registry does have is still served: each of its
    limits is in the work list, and an object known under one name only
    ends as the calls for its own limits, in sorted order, leave it. *)
Theorem unknown_service_is_skipped (ta_results : LimitMap)
    (services : dict ref) (w : World) :
  raises_only_ValueError ->
  exists w',
    _update_services (Some ta_results) services w = (Ok tt, w')
    /\ (forall svc_name,
          In svc_name (keys ta_results) ->
          dict_mem services svc_name = false ->
          In (CRITICAL, unknown_service_msg svc_name) (log w')
          /\ In (Unknown svc_name) (plan ta_results services)
          /\ forall r lim value,
               ~ In (Attempt svc_name r lim value) (plan ta_results services))
    /\ (forall svc_name r lim value,
          dict_get services svc_name = Some r ->
          get2 ta_results svc_name lim = Some value ->
          In (Attempt svc_name r lim value) (plan ta_results services))
    /\ (forall svc_name r limits,
          unique_keys ta_results ->
          dict_get ta_results svc_name = Some limits ->
          dict_get services svc_name = Some r ->
          (forall svc', dict_get services svc' = Some r -> svc' = svc_name) ->
          store w' r = service_after (store w r) (sorted_items limits)).
Proof.
  intros Hve. eexists. split; [now apply _update_services_total|].
  split; [|split].
  - intros svc Hin Hm. split; [|split].
    + simpl. rewrite in_app_iff. left. apply steps_log_unknown.
      apply plan_In. now split.
    + apply plan_In. now split.
    + intros r lim v H. apply plan_In in H. destruct H as [Hr _].
      apply dict_mem_get in Hr. congruence.
  - intros svc r lim v Hr Hv. apply plan_In. now split.
  - intros svc r limits Hu Hl Hr Hown. simpl.
    rewrite steps_store. simpl. now apply plan_on_service with svc.
Qed.

(** C7: when a known service rejects one limit name, that entry costs a
    warning naming the limit and the service and nothing else: the steps
    before it have been applied, the steps after it (the remaining limits of
    the service and all later services) are applied as well, and
    [_update_services] returns normally. *)
Theorem unknown_limit_is_skipped (ta_results : LimitMap)
    (services : dict ref) (w : World) (pre : list action)
    (svc_name : string) (r : ref) (lim_name : string) (value : Z)
    (post : list action) (e : exn) :
  raises_only_ValueError ->
  plan ta_results services
  = pre ++ Attempt svc_name r lim_name value :: post ->
  snd (set_ta_limit (store (fold_left apply_action pre (started w)) r)
         lim_name value) = Some e ->
  _update_services (Some ta_results) services w
  = (Ok tt,
     finished
       (fold_left apply_action post
          (emit WARNING (unknown_limit_msg lim_name svc_name)
             (called r lim_name value
                (fold_left apply_action pre (started w))))))
  /\ (forall svc r' lim v,
        dict_get services svc = Some r' ->
        get2 ta_results svc lim = Some v ->
        (svc, lim) <> (svc_name, lim_name) ->
        In (Attempt svc r' lim v) (pre ++ post)).
Proof.
  intros Hve Hplan Hrej. split.
  - rewrite _update_services_total by exact Hve.
    rewrite Hplan, fold_left_app. cbn [fold_left].
    unfold apply_action at 2. fold (started w). now rewrite Hrej.
  - intros svc r' lim v Hr Hv Hne.
    assert (Hin : In (Attempt svc r' lim v) (plan ta_results services))
      by (apply plan_In; now split).
    rewrite Hplan in Hin. apply in_app_or in Hin. apply in_or_app.
    destruct Hin as [Hin|[Heq|Hin]]; auto.
    injection Heq as -> _ -> _. now destruct Hne.
Qed.

(** C10: [_update_services] catches every exception of [_set_ta_limit]
    that is a [ValueError], of whatever origin (subclasses included): the
    entry gets the unknown-limit warning and the loops go on.  An exception
    of any other class ends [_update_services] at once with that exception,
    and no [ValueError] ever leaves it. *)
Theorem only_ValueError_is_swallowed (ta_results : LimitMap)
    (services : dict ref) (w : World) (pre : list action)
    (svc_name : string) (r : ref) (lim_name : string) (value : Z)
    (post : list action) (w1 : World) (e : exn) :
  plan ta_results services
  = pre ++ Attempt svc_name r lim_name value :: post ->
  for_each pre do_action (started w) = (Ok tt, w1) ->
  snd (set_ta_limit (store w1 r) lim_name value) = Some e ->
  (is_ValueError e = true ->
   _update_services (Some ta_results) services w
   = (for_each post do_action ;;
      logger INFO "Done updating TA limits on all services")
       (emit WARNING (unknown_limit_msg lim_name svc_name)
          (called r lim_name value w1)))
  /\ (is_ValueError e = false ->
      _update_services (Some ta_results) services w
      = (Raise e, called r lim_name value w1))
  /\ (forall ta e' w',
        _update_services ta services w = (Raise e', w') ->
        is_ValueError e' = false).
Proof.
  intros Hplan Hpre Hexn.
  assert (Hrun : _update_services (Some ta_results) services w
                 = match (if is_ValueError e
                          then (Ok tt,
                                emit WARNING
                                  (unknown_limit_msg lim_name svc_name)
                                  (called r lim_name value w1))
                          else (Raise e, called r lim_name value w1))
                   with
                   | (Ok _, w2) =>
                       (for_each post do_action ;;
                        logger INFO "Done updating TA limits on all services")
                         w2
                   | (Raise e0, w2) => (Raise e0, w2)
                   end).
  { rewrite _update_services_steps, Hplan.
    unfold bind at 1. unfold logger at 1. unfold bind at 1.
    rewrite for_each_app. unfold bind at 1. fold (started w). rewrite Hpre.
    cbn [for_each]. unfold bind at 1.
    rewrite do_attempt_cases, Hexn.
    destruct (is_ValueError e); reflexivity. }
  split; [|split].
  - intros Hve. now rewrite Hrun, Hve.
  - intros Hve. now rewrite Hrun, Hve.
  - intros ta e' w'. apply _update_services_no_ValueError.
Qed.

(** ** The order of the steps *)

Lemma StronglySorted_append {A} (R : A -> A -> Prop) (l1 l2 : list A) :
  StronglySorted R l1 -> StronglySorted R l2 ->
  (forall a b, In a l1 -> In b l2 -> R a b) ->
  StronglySorted R (l1 ++ l2).
Proof.
  intros H1 H2 H12. induction H1 as [|a l1 H1 IH Ha]; simpl; [exact H2|].
  constructor.
  - apply IH. intros x y Hx Hy. apply H12; [now right | exact Hy].
  - apply Forall_app. split; [exact Ha|].
    apply Forall_forall. intros b Hb. apply H12; [now left | exact Hb].
Qed.

Lemma StronglySorted_flat_map {A B} (R : A -> A -> Prop)
    (Q : B -> B -> Prop) (f : A -> list B) (l : list A) :
  StronglySorted R l ->
  (forall x, StronglySorted Q (f x)) ->
  (forall x y a b, R x y -> In a (f x) -> In b (f y) -> Q a b) ->
  StronglySorted Q (flat_map f l).
Proof.
  intros Hl Hf Hx. induction Hl as [|x l Hl IH Hxl]; simpl; [constructor|].
  apply StronglySorted_append; [apply Hf | exact IH |].
  intros a b Ha Hb. apply in_flat_map in Hb. destruct Hb as (y & Hy & Hb).
  rewrite Forall_forall in Hxl. eapply Hx; eauto.
Qed.

Lemma limit_steps_ordered (svc_name : string) (r : ref) (limits : dict Z)
    (names : list string) :
  StronglySorted lt_str names ->
  StronglySorted (fun a b => action_lt a b = true)
    (limit_steps svc_name r limits names).
Proof.
  intros Hs. unfold limit_steps.
  apply StronglySorted_flat_map with (R := lt_str); [exact Hs | |].
  - intros k. destruct (dict_get limits k); repeat constructor.
  - intros x y a b Hxy Ha Hb.
    destruct (dict_get limits x); [|contradiction].
    destruct (dict_get limits y); [|contradiction].
    destruct Ha as [<-|[]], Hb as [<-|[]].
    unfold action_lt. simpl. rewrite String.eqb_refl, Hxy.
    apply orb_true_r.
Qed.

Lemma service_steps_service (ta_results : LimitMap) (services : dict ref)
    (svc_name : string) (a : action) :
  In a (service_steps ta_results services svc_name) ->
  action_service a = svc_name.
Proof.
  unfold service_steps.
  destruct (dict_get ta_results svc_name) as [limits|]; [|contradiction].
  destruct (dict_get services svc_name) as [r|].
  - intros H. apply limit_steps_In in H.
    now destruct H as (lim & v & _ & _ & ->).
  - now intros [<-|[]].
Qed.

Lemma plan_ordered (ta_results : LimitMap) (services : dict ref) :
  well_formed ta_results ->
  StronglySorted (fun a b => action_lt a b = true) (plan ta_results services).
Proof.
  intros [Hu Hin]. unfold plan.
  apply StronglySorted_flat_map with (R := lt_str).
  - now apply sorted_strict.
  - intros svc. unfold service_steps.
    destruct (dict_get ta_results svc) as [limits|] eqn:El; [|constructor].
    destruct (dict_get services svc) as [r|]; [|repeat constructor].
    apply limit_steps_ordered, sorted_strict. now apply Hin with svc.
  - intros x y a b Hxy Ha Hb.
    apply service_steps_service in Ha, Hb.
    unfold action_lt. rewrite Ha, Hb. unfold lt_str in Hxy. now rewrite Hxy.
Qed.

(** Two dicts with unique keys and the same content have the same keys in
    sorted order. *)
Lemma sorted_keys_same {V V'} (d : dict V) (d' : dict V') :
  unique_keys d -> unique_keys d' ->
  (forall k, dict_mem d k = dict_mem d' k) ->
  sorted (keys d) = sorted (keys d').
Proof.
  intros Hu Hu' Hm. apply sorted_of_perm.
  apply NoDup_Permutation; try assumption.
  intros k. rewrite <- !dict_mem_keys. now rewrite Hm.
Qed.

Lemma plan_same (m m' : LimitMap) (services : dict ref) :
  well_formed m -> well_formed m' -> same_map m m' ->
  plan m' services = plan m services.
Proof.
  intros [Hu Hin] [Hu' Hin'] Hsame. unfold plan.
  rewrite (sorted_keys_same m' m) by (auto; intros k; symmetry;
                                      apply (Hsame k "")).
  apply flat_map_ext. intros svc. unfold service_steps.
  pose proof (fun lim => proj2 (Hsame svc lim)) as Hget.
  pose proof (proj1 (Hsame svc "")) as Hmem.
  unfold get2, dict_mem in *.
  destruct (dict_get m svc) as [limits|] eqn:El;
    destruct (dict_get m' svc) as [limits'|] eqn:El'; try discriminate;
    [|reflexivity].
  destruct (dict_get services svc) as [r|]; [|reflexivity].
  rewrite (sorted_keys_same limits' limits).
  - unfold limit_steps. apply flat_map_ext. intros lim. now rewrite Hget.
  - now apply Hin' with svc.
  - now apply Hin with svc.
  - intros k. unfold dict_mem. now rewrite Hget.
Qed.

(** C8: [_update_services] runs the work list in its order, and that order
    is strictly ascending: by service name, and by limit name within one
    service.  Two maps with the same content, whatever the order their
    entries were inserted in, give the same work list and so the same run;
    the order comes from [sorted], not from the dict. *)
Theorem processing_order_is_sorted (m m' : LimitMap) (services : dict ref)
    (w : World) :
  well_formed m -> well_formed m' -> same_map m m' ->
  _update_services (Some m) services w
  = (logger DEBUG "Updating TA limits on all services" ;;
     for_each (plan m services) do_action ;;
     logger INFO "Done updating TA limits on all services") w
  /\ StronglySorted (fun a b => action_lt a b = true) (plan m services)
  /\ plan m' services = plan m services
  /\ _update_services (Some m') services w
     = _update_services (Some m) services w.
Proof.
  intros Hwf Hwf' Hsame. split; [|split; [|split]].
  - apply _update_services_steps.
  - now apply plan_ordered.
  - now apply plan_same.
  - rewrite !_update_services_steps. now rewrite (plan_same m m').
Qed.

(** ** [update_limits] when the check is absent *)

Lemma connect_ok (w : World) (c : Connection) :
  conn w = Some c \/ (conn w = None /\ connect_support = Ok c) ->
  exists w1,
    connect w = (Ok tt, w1) /\ conn w1 = Some c /\ store w1 = store w.
Proof.
  intros [Hc|[Hc Hb]].
  - exists w. now rewrite (connect_connected w c Hc).
  - unfold connect, bind, self_conn, logger, boto_connect_support, set_conn.
    simpl. rewrite Hc, Hb. eexists. split; [reflexivity|]. now split.
Qed.

Lemma _poll_absent (w : World) (c : Connection) (checks : list Check) :
  conn w = Some c ->
  describe_trusted_advisor_checks c "en" = Ok checks ->
  Forall (fun x => is_limit_check x = false) checks ->
  exists w2, _poll w = (Ok None, w2) /\ store w2 = store w.
Proof.
  intros Hc Hd Hno. unfold _poll, bind at 1 2. unfold logger at 1.
  rewrite (_get_limit_check_id_absent _ c checks) by assumption.
  unfold bind, logger, ret. eexists. split; reflexivity.
Qed.

(** C1, where the code departs from it: when the locator finds no check,
    [_poll] returns [None] and [update_limits] hands that [None] to
    [_update_services], whose [ta_results.keys()] raises [AttributeError].
    No service object is touched, but the call does not return normally. *)
Theorem update_limits_check_absent_raises (services : dict ref) (w : World)
    (c : Connection) (checks : list Check) :
  conn w = Some c \/ (conn w = None /\ connect_support = Ok c) ->
  describe_trusted_advisor_checks c "en" = Ok checks ->
  Forall (fun x => is_limit_check x = false) checks ->
  fst (update_limits services w)
  = Raise (AttributeError "'NoneType' object has no attribute 'keys'")
  /\ store (snd (update_limits services w)) = store w.
Proof.
  intros Hconn Hd Hno.
  destruct (connect_ok w c Hconn) as (w1 & Hrun1 & Hc1 & Hs1).
  destruct (_poll_absent w1 c checks Hc1 Hd Hno) as (w2 & Hrun2 & Hs2).
  unfold update_limits, bind. rewrite Hrun1, Hrun2.
  unfold _update_services, bind, logger, raise. simpl.
  split; [reflexivity | congruence].
Qed.

(** ** What the methods leave alone *)

Lemma only_logged_refl (w : World) : only_logged w w.
Proof.
  repeat split. exists []. now rewrite app_nil_r.
Qed.

Lemma only_logged_trans (w1 w2 w3 : World) :
  only_logged w1 w2 -> only_logged w2 w3 -> only_logged w1 w3.
Proof.
  intros (Hc & Hs & Hn & rs & Hl) (Hc' & Hs' & Hn' & rs' & Hl').
  repeat split; try congruence.
  exists (rs ++ rs'). now rewrite Hl', Hl, app_assoc.
Qed.

Lemma only_logged_emit (l : level) (msg : string) (w w' : World) :
  only_logged w w' -> only_logged w (emit l msg w').
Proof.
  intros H. apply only_logged_trans with w'; [exact H|].
  repeat split. now exists [(l, msg)].
Qed.

Lemma find_limit_check_only_logs (checks : list Check) (w : World) :
  only_logged w (snd (find_limit_check checks w)).
Proof.
  induction checks as [|x checks IH]; simpl; [apply only_logged_refl|].
  destruct (is_limit_check x); [|exact IH].
  apply only_logged_emit, only_logged_refl.
Qed.

Lemma _get_limit_check_id_only_logs (w : World) :
  only_logged w (snd (_get_limit_check_id w)).
Proof.
  unfold _get_limit_check_id, bind, logger, conn_attr, self_conn, bind, lift,
    ret, raise. simpl.
  destruct (conn w) as [c|] eqn:Hc; simpl;
    [|apply only_logged_emit, only_logged_refl].
  destruct (describe_trusted_advisor_checks c "en") as [checks|]; simpl;
    [|apply only_logged_emit, only_logged_refl].
  pose proof (find_limit_check_only_logs checks
                (emit DEBUG "Querying Trusted Advisor checks" w)) as H.
  apply only_logged_trans
    with (emit DEBUG "Querying Trusted Advisor checks" w);
    [apply only_logged_emit, only_logged_refl|].
  destruct (find_limit_check checks _) as [[[r|]|e] w1]; simpl in *;
    auto using only_logged_emit.
Qed.

Lemma _poll_only_logged (w : World) : only_logged w (snd (_poll w)).
Proof.
  unfold _poll, bind at 1 2. unfold logger at 1.
  pose proof (_get_limit_check_id_only_logs
                (emit INFO "Beginning TrustedAdvisor poll" w)) as H.
  apply only_logged_trans with (emit INFO "Beginning TrustedAdvisor poll" w);
    [apply only_logged_emit, only_logged_refl|].
  destruct (_get_limit_check_id _) as [[[[id md]|]|e] w1]; simpl in H;
    [| unfold bind, logger, ret; simpl; now apply only_logged_emit
     | exact H].
  apply only_logged_trans with w1; [exact H|].
  unfold bind, conn_attr, self_conn, bind, lift, ret, raise, logger. simpl.
  destruct (conn w1) as [c|] eqn:Hc; simpl; [|apply only_logged_refl].
  rewrite Hc; simpl.
  destruct (describe_trusted_advisor_check_result c id) as [cr|]; simpl;
    [|apply only_logged_refl].
  destruct (parser_parse (timestamp cr)) as [dt|]; simpl;
    [|apply only_logged_refl].
  destruct (poll_rows _ _ _ _); simpl;
    repeat apply only_logged_emit; apply only_logged_refl.
Qed.



(** X1: [_poll] only writes log records.  Whatever the Support API returns
    or raises, and whether [_poll] returns a map, returns [None] or raises,
    the connection, the service objects and the count of connections made
    are what they were, and the log has its old records first. *)
Theorem _poll_only_logs (w : World) :
  conn (snd (_poll w)) = conn w
  /\ store (snd (_poll w)) = store w
  /\ support_connects (snd (_poll w)) = support_connects w
  /\ exists records, log (snd (_poll w)) = log w ++ records.
Proof.
  exact (_poll_only_logged w).
Qed.

(** ** Failures before the limits are applied *)

Lemma connect_store (w : World) : store (snd (connect w)) = store w.
Proof.
  unfold connect, bind, self_conn, logger, boto_connect_support, set_conn, ret.
  simpl. destruct (conn w); [reflexivity|].
  now destruct connect_support.
Qed.

Lemma _poll_located (w : World) (c : Connection) (check : Check) :
  conn w = Some c -> locates c check ->
  fst (_poll w)
  = match describe_trusted_advisor_check_result c (check_id check) with
    | Raise e => Raise e
    | Ok cr =>
        match parser_parse (timestamp cr) with
        | Raise e => Raise e
        | Ok _ =>
            match poll_rows (region_name c) (check_metadata check)
                    (flaggedResources cr) [] with
            | Ok res => Ok (Some res)
            | Raise e => Raise e
            end
        end
    end.
Proof.
  intros Hc (pre & post & Hd & Hpre & Hchk).
  unfold _poll, bind at 1 2. unfold logger at 1.
  rewrite (_get_limit_check_id_found _ c pre check post) by assumption.
  unfold bind, conn_attr, self_conn, bind, lift, ret, logger. simpl.
  repeat (rewrite Hc; simpl).
  destruct (describe_trusted_advisor_check_result c (check_id check))
    as [cr|]; [|reflexivity].
  destruct (parser_parse (timestamp cr)); [|reflexivity].
  now destruct (poll_rows _ _ _ _).
Qed.

Lemma _poll_list_raises (w : World) (c : Connection) (e : exn) :
  conn w = Some c ->
  describe_trusted_advisor_checks c "en" = Raise e ->
  fst (_poll w) = Raise e.
Proof.
  intros Hc Hd.
  unfold _poll, _get_limit_check_id, bind, logger, conn_attr, self_conn,
    bind, lift, ret. simpl.
  now rewrite Hc, Hd.
Qed.

(** When [connect] has returned and [_poll] raises, [update_limits] raises
    the same exception and the service objects are as they were. *)
Lemma update_limits_poll_raises (services : dict ref) (w w1 : World)
    (e : exn) :
  connect w = (Ok tt, w1) ->
  fst (_poll w1) = Raise e ->
  fst (update_limits services w) = Raise e
  /\ store (snd (update_limits services w)) = store w.
Proof.
  intros Hconn Hpoll.
  pose proof (connect_store w) as Hs1. rewrite Hconn in Hs1. simpl in Hs1.
  destruct (_poll_only_logged w1) as (_ & Hs2 & _).
  unfold update_limits, bind. rewrite Hconn.
  destruct (_poll w1) as [[r|e'] w2]; simpl in *; [discriminate|].
  split; congruence.
Qed.

(** X2: an exception of the Support API goes through [update_limits]
    unchanged and before any limit is applied: whether it comes from
    [boto.connect_support] (no connection is kept then), from listing the
    checks, or from fetching the result of the located check, the service
    objects are left as they were. *)
Theorem update_limits_transport_errors (services : dict ref) (w : World)
    (e : exn) :
  (conn w = None -> connect_support = Raise e ->
   fst (update_limits services w) = Raise e
   /\ store (snd (update_limits services w)) = store w
   /\ conn (snd (update_limits services w)) = None)
  /\ (forall c,
        session w c ->
        describe_trusted_advisor_checks c "en" = Raise e ->
        fst (update_limits services w) = Raise e
        /\ store (snd (update_limits services w)) = store w)
  /\ (forall c check,
        session w c -> locates c check ->
        describe_trusted_advisor_check_result c (check_id check) = Raise e ->
        fst (update_limits services w) = Raise e
        /\ store (snd (update_limits services w)) = store w).
Proof.
  split; [|split].
  - intros Hc Hb.
    unfold update_limits, connect, bind, self_conn, logger,
      boto_connect_support. simpl.
    now rewrite Hc, Hb.
  - intros c Hs Hd.
    destruct (connect_ok w c Hs) as (w1 & Hrun & Hc1 & _).
    apply update_limits_poll_raises with w1; [exact Hrun|].
    now apply _poll_list_raises with c.
  - intros c check Hs Hloc Hr.
    destruct (connect_ok w c Hs) as (w1 & Hrun & Hc1 & _).
    apply update_limits_poll_raises with w1; [exact Hrun|].
    rewrite (_poll_located w1 c check Hc1 Hloc). now rewrite Hr.
Qed.

(** X3: the timestamp of the check result is parsed before any row is
    read.  When [parser.parse] raises on it, [update_limits] raises that
    exception, whatever the rows are, and no limit is applied, although the
    parsed time is used for a debug record only. *)
Theorem update_limits_unparsable_timestamp (services : dict ref) (w : World)
    (c : Connection) (check : Check) (cr : CheckResult) (e : exn) :
  session w c -> locates c check ->
  describe_trusted_advisor_check_result c (check_id check) = Ok cr ->
  parser_parse (timestamp cr) = Raise e ->
  fst (update_limits services w) = Raise e
  /\ store (snd (update_limits services w)) = store w.
Proof.
  intros Hs Hloc Hr Ht.
  destruct (connect_ok w c Hs) as (w1 & Hrun & Hc1 & _).
  apply update_limits_poll_raises with w1; [exact Hrun|].
  rewrite (_poll_located w1 c check Hc1 Hloc). now rewrite Hr, Ht.
Qed.

(** X4: the poll is finished before the first limit is applied.  When the
    rows before some row are read without error and that row raises (a
    missing field, an amount that is no integer), [update_limits] raises
    that exception and not one service object is changed: the rows read
    before it are not applied either. *)
Theorem update_limits_bad_row_applies_nothing (services : dict ref)
    (w : World) (c : Connection) (check : Check) (cr : CheckResult)
    (dt : string) (good : list FlaggedResource) (bad : FlaggedResource)
    (rest : list FlaggedResource) (res : LimitMap) (e : exn) :
  session w c -> locates c check ->
  describe_trusted_advisor_check_result c (check_id check) = Ok cr ->
  parser_parse (timestamp cr) = Ok dt ->
  flaggedResources cr = good ++ bad :: rest ->
  poll_rows (region_name c) (check_metadata check) good [] = Ok res ->
  poll_row (region_name c) (check_metadata check) res bad = Raise e ->
  fst (update_limits services w) = Raise e
  /\ store (snd (update_limits services w)) = store w.
Proof.
  intros Hs Hloc Hr Ht Hrows Hgood Hbad.
  destruct (connect_ok w c Hs) as (w1 & Hrun & Hc1 & _).
  apply update_limits_poll_raises with w1; [exact Hrun|].
  rewrite (_poll_located w1 c check Hc1 Hloc). rewrite Hr, Ht, Hrows.
  rewrite poll_rows_app, Hgood. simpl. now rewrite Hbad.
Qed.

(** ** The map [_poll] returns *)

Lemma keys_dict_set {V} (d : dict V) (k : string) (v : V) :
  keys (dict_set d k v) = if dict_mem d k then keys d else keys d ++ [k].
Proof.
  unfold dict_mem. induction d as [|[k' v'] d IH]; simpl; [reflexivity|].
  destruct (k' =? k) eqn:E; simpl; [reflexivity|].
  rewrite IH. now destruct (dict_get d k).
Qed.

Lemma unique_keys_dict_set {V} (d : dict V) (k : string) (v : V) :
  unique_keys d -> unique_keys (dict_set d k v).
Proof.
  unfold unique_keys. intros Hu. rewrite keys_dict_set.
  destruct (dict_mem d k) eqn:E; [exact Hu|].
  apply Permutation_NoDup with (k :: keys d);
    [apply Permutation_cons_append|].
  constructor; [|exact Hu].
  rewrite <- dict_mem_keys. congruence.
Qed.

(** The map a retained row leaves, written out. *)
Lemma poll_row_result (region : string) (metadata : list string)
    (res res' : LimitMap) (check : FlaggedResource) :
  res_region check = region ->
  poll_row region metadata res check = Ok res' ->
  exists svc lim amount value,
    dict_get (row_data metadata check) "Service" = Some svc /\
    dict_get (row_data metadata check) "Limit Name" = Some lim /\
    dict_get (row_data metadata check) "Limit Amount" = Some amount /\
    int amount = Ok value /\
    res' = dict_set
             (if negb (dict_mem res svc) then dict_set res svc [] else res)
             svc
             (dict_set
                (match dict_get res svc with Some l => l | None => [] end)
                lim value).
Proof.
  intros Hreg. unfold poll_row, getitem.
  rewrite Hreg, String.eqb_refl. simpl.
  destruct (dict_get (row_data metadata check) "Service") as [svc|];
    [|discriminate].
  destruct (dict_get (row_data metadata check) "Limit Amount") as [amount|];
    [|discriminate].
  destruct (int amount) as [value|] eqn:Hint; [|discriminate].
  assert (Hl : dict_get
                 (if negb (dict_mem res svc) then dict_set res svc [] else res)
                 svc
               = Some (match dict_get res svc with Some l => l | None => [] end)).
  { unfold dict_mem. destruct (dict_get res svc) eqn:E; simpl.
    - exact E.
    - apply dict_get_set_same. }
  rewrite Hl.
  destruct (dict_get (row_data metadata check) "Limit Name") as [lim|];
    [|discriminate].
  intros [= <-]. now exists svc, lim, amount, value.
Qed.

Lemma poll_row_well_formed (region : string) (metadata : list string)
    (res res' : LimitMap) (check : FlaggedResource) :
  well_formed res ->
  poll_row region metadata res check = Ok res' ->
  well_formed res'.
Proof.
  intros [Hu Hin] Hrow.
  destruct (String.eqb_spec (res_region check) region) as [Hreg|Hreg].
  2: { rewrite poll_row_other_region in Hrow by exact Hreg.
       injection Hrow as <-. now split. }
  destruct (poll_row_result _ _ _ _ _ Hreg Hrow)
    as (svc & lim & amount & value & _ & _ & _ & _ & ->).
  assert (Hl : unique_keys
                 (match dict_get res svc with Some l => l | None => [] end)).
  { destruct (dict_get res svc) as [l|] eqn:E; [now apply Hin with svc|].
    constructor. }
  split.
  - apply unique_keys_dict_set.
    destruct (negb (dict_mem res svc)); [now apply unique_keys_dict_set|].
    exact Hu.
  - intros s limits.
    destruct (String.eqb_spec svc s) as [<-|Hne].
    + rewrite dict_get_set_same. intros [= <-].
      now apply unique_keys_dict_set.
    + rewrite dict_get_set_other by exact Hne.
      destruct (negb (dict_mem res svc)).
      * rewrite dict_get_set_other by exact Hne. apply Hin.
      * apply Hin.
Qed.

Lemma poll_rows_well_formed (region : string) (metadata : list string)
    (rows : list FlaggedResource) :
  forall res res',
    well_formed res ->
    poll_rows region metadata rows res = Ok res' ->
    well_formed res'.
Proof.
  induction rows as [|r rows IH]; intros res res' Hwf Hrun; simpl in Hrun.
  - now injection Hrun as <-.
  - destruct (poll_row region metadata res r) as [res1|] eqn:Hrow;
      [|discriminate].
    apply (IH res1); [|exact Hrun].
    now apply poll_row_well_formed with region metadata res r.
Qed.

(** Every service of the map has a limit. *)
Lemma poll_rows_no_empty_service (region : string) (metadata : list string)
    (rows : list FlaggedResource) :
  forall res res',
    (forall s, dict_mem res s = true -> exists l v, get2 res s l = Some v) ->
    poll_rows region metadata rows res = Ok res' ->
    forall s, dict_mem res' s = true -> exists l v, get2 res' s l = Some v.
Proof.
  induction rows as [|r rows IH]; intros res res' Hne Hrun; simpl in Hrun.
  - now injection Hrun as <-.
  - destruct (poll_row region metadata res r) as [res1|] eqn:Hrow;
      [|discriminate].
    apply (IH res1); [|exact Hrun]. clear IH Hrun.
    destruct (String.eqb_spec (res_region r) region) as [Hreg|Hreg].
    2: { rewrite poll_row_other_region in Hrow by exact Hreg.
         now injection Hrow as <-. }
    destruct (poll_row_retained_inv _ _ _ _ _ Hreg Hrow)
      as (svc & lim & a & v & Hs & Hl & Ha & Hv).
    destruct (poll_row_store _ _ res _ _ _ _ _ Hreg Hs Hl Ha Hv)
      as (res2 & Hrow2 & Hget & Hkeep).
    rewrite Hrow in Hrow2. injection Hrow2 as <-.
    intros s Hm.
    destruct (String.eqb_spec s svc) as [->|Hsne]; [now exists lim, v|].
    destruct (poll_row_result _ _ _ _ _ Hreg Hrow)
      as (svc' & lim' & a' & v' & Hs' & _ & _ & _ & Hres).
    assert (svc' = svc) by congruence. subst svc'.
    assert (Hsame : dict_get res1 s = dict_get res s).
    { rewrite Hres. rewrite dict_get_set_other by congruence.
      destruct (negb (dict_mem res svc)); [|reflexivity].
      apply dict_get_set_other. congruence. }
    assert (Hm0 : dict_mem res s = true).
    { unfold dict_mem in *. now rewrite <- Hsame. }
    destruct (Hne s Hm0) as (l0 & v0 & Hg).
    exists l0, v0. rewrite Hkeep; [exact Hg | now left].
Qed.

Lemma poll_rows_provenance (region : string) (metadata : list string)
    (svc lim : string) (value : Z) (rows : list FlaggedResource) :
  forall res res',
    poll_rows region metadata rows res = Ok res' ->
    get2 res' svc lim = Some value ->
    get2 res svc lim = Some value \/
    exists row amount,
      In row rows /\ row_targets region metadata svc lim row /\
      dict_get (row_data metadata row) "Limit Amount" = Some amount /\
      int amount = Ok value.
Proof.
  induction rows as [|r rows IH]; intros res res' Hrun Hget; simpl in Hrun.
  - injection Hrun as <-. now left.
  - destruct (poll_row region metadata res r) as [res1|] eqn:Hrow;
      [|discriminate].
    destruct (IH res1 res' Hrun Hget) as [H1|(row & a & Hin & Ht & Ha & Hv)].
    2: { right. exists row, a. auto using in_cons. }
    destruct (String.eqb_spec (res_region r) region) as [Hreg|Hreg].
    2: { rewrite poll_row_other_region in Hrow by exact Hreg.
         injection Hrow as <-. now left. }
    destruct (poll_row_retained_inv _ _ _ _ _ Hreg Hrow)
      as (s & l & a & v & Hs & Hl & Ha & Hv).
    destruct (poll_row_store _ _ res _ _ _ _ _ Hreg Hs Hl Ha Hv)
      as (res2 & Hrow2 & Hstored & Hkeep).
    rewrite Hrow in Hrow2. injection Hrow2 as <-.
    destruct (String.eqb_spec svc s) as [->|Hsne].
    + destruct (String.eqb_spec lim l) as [->|Hlne].
      * right. exists r, a. split; [now left|].
        assert (v = value) by congruence. subst v. now repeat split.
      * left. rewrite <- Hkeep; [exact H1 | now right].
    + left. rewrite <- Hkeep; [exact H1 | now left].
Qed.

Lemma find_limit_check_inv (checks : list Check) :
  forall w r,
    fst (find_limit_check checks w) = Ok (Some r) ->
    exists pre check post,
      checks = pre ++ check :: post /\
      Forall (fun x => is_limit_check x = false) pre /\
      is_limit_check check = true /\
      r = (check_id check, check_metadata check).
Proof.
  induction checks as [|x checks IH]; intros w r; simpl; [discriminate|].
  destruct (is_limit_check x) eqn:E.
  - simpl. intros [= <-]. exists [], x, checks. repeat split; auto.
  - intros H. destruct (IH w r H) as (pre & check & post & -> & Hpre & Hc & Hr).
    exists (x :: pre), check, post. repeat split; auto.
Qed.

Lemma _get_limit_check_id_inv (w : World) (id : string)
    (md : list string) :
  fst (_get_limit_check_id w) = Ok (Some (id, md)) ->
  exists c check,
    conn w = Some c /\ locates c check /\
    id = check_id check /\ md = check_metadata check.
Proof.
  unfold _get_limit_check_id, bind, logger, conn_attr, self_conn, bind, lift,
    ret, raise. simpl.
  destruct (conn w) as [c|]; simpl; [|discriminate].
  destruct (describe_trusted_advisor_checks c "en") as [checks|] eqn:Hd;
    simpl; [|discriminate].
  pose proof (find_limit_check_inv checks
                (emit DEBUG "Querying Trusted Advisor checks" w)) as Hinv.
  destruct (find_limit_check checks _) as [[[r|]|e] w1]; simpl in *;
    try discriminate.
  intros [= ->].
  destruct (Hinv _ eq_refl) as (pre & check & post & -> & Hpre & Hc & [= -> ->]).
  exists c, check. repeat split; auto. now exists pre, post.
Qed.

(** A map returned by [_poll] was built by the loop, from the empty dict,
    over the rows of the located check. *)
Lemma _poll_inv (w : World) (res : LimitMap) :
  fst (_poll w) = Ok (Some res) ->
  exists c check cr,
    conn w = Some c /\ locates c check /\
    describe_trusted_advisor_check_result c (check_id check) = Ok cr /\
    poll_rows (region_name c) (check_metadata check) (flaggedResources cr) []
    = Ok res.
Proof.
  intros H.
  assert (Hfound : exists c check, conn w = Some c /\ locates c check).
  { revert H. unfold _poll, bind at 1 2. unfold logger at 1.
    pose proof (_get_limit_check_id_inv
                  (emit INFO "Beginning TrustedAdvisor poll" w)) as Hinv.
    destruct (_get_limit_check_id _) as [[[[id md]|]|e] w1]; simpl in *;
      try discriminate.
    intros _. destruct (Hinv id md eq_refl) as (c & check & Hc & Hloc & _).
    now exists c, check. }
  destruct Hfound as (c & check & Hc & Hloc).
  exists c, check.
  rewrite (_poll_located w c check Hc Hloc) in H.
  destruct (describe_trusted_advisor_check_result c (check_id check))
    as [cr|]; [|discriminate].
  destruct (parser_parse (timestamp cr)); [|discriminate].
  destruct (poll_rows _ _ _ _) eqn:E; [|discriminate].
  injection H as <-. exists cr. auto.
Qed.

(** X5: whatever map [_poll] returns keeps the dict invariants the loops of
    [_update_services] rely on for their order: no service name and, within
    a service, no limit name occurs twice; and every service in it has at
    least one limit. *)
Theorem _poll_returns_well_formed_map (w : World) (res : LimitMap) :
  fst (_poll w) = Ok (Some res) ->
  well_formed res
  /\ forall svc, dict_mem res svc = true ->
                 exists lim value, get2 res svc lim = Some value.
Proof.
  intros H. destruct (_poll_inv w res H) as (c & check & cr & _ & _ & _ & Hrun).
  split.
  - eapply poll_rows_well_formed; [|exact Hrun].
    split; [constructor | discriminate].
  - eapply poll_rows_no_empty_service; [|exact Hrun]. discriminate.
Qed.

(** X6: [_poll] invents nothing.  Every value of the returned map is the
    integer read from the "Limit Amount" field of a flagged resource of the
    located check that lies in the region of the session and names that
    service and that limit. *)
Theorem polled_entries_come_from_rows (w : World) (res : LimitMap)
    (svc lim : string) (value : Z) :
  fst (_poll w) = Ok (Some res) ->
  get2 res svc lim = Some value ->
  exists c check cr row amount,
    conn w = Some c /\ locates c check /\
    describe_trusted_advisor_check_result c (check_id check) = Ok cr /\
    In row (flaggedResources cr) /\
    row_targets (region_name c) (check_metadata check) svc lim row /\
    dict_get (row_data (check_metadata check) row) "Limit Amount"
    = Some amount /\
    int amount = Ok value.
Proof.
  intros H Hget.
  destruct (_poll_inv w res H) as (c & check & cr & Hc & Hloc & Hr & Hrun).
  destruct (poll_rows_provenance _ _ svc lim value _ _ _ Hrun Hget)
    as [Habs|(row & amount & Hin & Ht & Ha & Hv)]; [discriminate|].
  exists c, check, cr, row, amount. auto 10.
Qed.

(** ** Rows shorter or longer than the field list *)

Lemma dict_get_In {V} (d : dict V) (k : string) (v : V) :
  dict_get d k = Some v -> In (k, v) d.
Proof.
  induction d as [|[k' v'] d IH]; simpl; [discriminate|].
  destruct (String.eqb_spec k' k) as [->|]; [|auto].
  intros [= ->]. now left.
Qed.

(** X7: [zip] pairs by position and stops at the shorter list.  With
    distinct field names, the field at position [i] reads the value at
    position [i] of the row, and is absent when the row has no such
    position; so a retained row too short to reach its "Service" field
    raises [KeyError], and values beyond the last field name are never
    read. *)
Theorem row_fields_by_position (region : string) (metadata : list string)
    (res : LimitMap) (check : FlaggedResource) :
  NoDup metadata ->
  (forall i field,
      nth_error metadata i = Some field ->
      dict_get (row_data metadata check) field
      = nth_error (res_metadata check) i)
  /\ (forall i,
        res_region check = region ->
        nth_error metadata i = Some "Service" ->
        length (res_metadata check) <= i ->
        poll_row region metadata res check = Raise (KeyError "Service"))
  /\ (forall extra,
        length metadata <= length (res_metadata check) ->
        poll_row region metadata res
          {| res_region := res_region check;
             res_metadata := res_metadata check ++ extra |}
        = poll_row region metadata res check).
Proof.
  intros Hnd.
  assert (Hfield : forall i field,
             nth_error metadata i = Some field ->
             dict_get (row_data metadata check) field
             = nth_error (res_metadata check) i).
  { intros i field Hf.
    destruct (nth_error (res_metadata check) i) as [v|] eqn:Hv.
    - unfold row_data. now apply zip_positional with i.
    - destruct (dict_get (row_data metadata check) field) as [v|] eqn:Hg;
        [|reflexivity].
      exfalso. unfold row_data in Hg. rewrite dict_of_last in Hg.
      apply dict_get_In, in_rev in Hg. unfold zip in Hg.
      apply nth_error_None in Hv.
      revert i Hf Hv Hg. generalize (res_metadata check) as values.
      clear check. induction Hnd as [|n names Hn Hnd IH];
        intros [|x values] i Hf Hv Hg; simpl in *; try contradiction.
      destruct i as [|i]; simpl in *; [lia|].
      destruct Hg as [[= -> ->]|Hg].
      + apply nth_error_In in Hf. contradiction.
      + apply (IH values i); auto. lia. }
  split; [exact Hfield|]. split.
  - intros i Hreg Hs Hlen. unfold poll_row, getitem.
    rewrite Hreg, String.eqb_refl. simpl.
    rewrite (Hfield i "Service" Hs).
    apply nth_error_None in Hlen. now rewrite Hlen.
  - intros extra Hlen. unfold poll_row, row_data, zip. simpl.
    replace (combine metadata (res_metadata check ++ extra))
      with (combine metadata (res_metadata check)); [reflexivity|].
    revert Hlen. generalize (res_metadata check) as values. clear.
    induction metadata as [|n names IH]; intros [|x values] Hlen;
      simpl in *; try reflexivity; try lia.
    f_equal. apply IH. lia.
Qed.

(** ** What [_update_services] leaves alone *)

Lemma do_action_frame (a : action) (w : World) :
  conn (snd (do_action a w)) = conn w
  /\ support_connects (snd (do_action a w)) = support_connects w
  /\ forall r,
       (forall svc r' lim v, a = Attempt svc r' lim v -> r' <> r) ->
       store (snd (do_action a w)) r = store w r.
Proof.
  destruct a as [svc|svc r' lim v]; [now repeat split|].
  rewrite do_attempt_cases.
  assert (Hst : forall r, r' <> r -> store_after (store w) r' lim v r
                                     = store w r).
  { intros r Hne. unfold store_after, store_set.
    destruct (Nat.eqb_spec r r'); [congruence | reflexivity]. }
  destruct (snd (set_ta_limit (store w r') lim v)) as [e|];
    [destruct (is_ValueError e)|]; simpl; repeat split;
    intros r Hr; apply Hst; now apply (Hr svc r' lim v).
Qed.

Lemma steps_frame (acts : list action) :
  forall w,
    conn (snd (for_each acts do_action w)) = conn w
    /\ support_connects (snd (for_each acts do_action w)) = support_connects w
    /\ forall r,
         (forall svc r' lim v, In (Attempt svc r' lim v) acts -> r' <> r) ->
         store (snd (for_each acts do_action w)) r = store w r.
Proof.
  induction acts as [|a acts IH]; intros w; [now repeat split|].
  cbn [for_each]. unfold bind.
  destruct (do_action_frame a w) as (Hc & Hn & Hs).
  destruct (do_action a w) as [[[]|e] w1]; simpl in *.
  - destruct (IH w1) as (Hc' & Hn' & Hs').
    repeat split; try congruence.
    intros r Hr. rewrite Hs', Hs; auto.
    + intros svc r' lim v ->. apply (Hr svc r' lim v). now left.
    + intros svc r' lim v Hin. apply (Hr svc r' lim v). now right.
  - repeat split; auto.
    intros r Hr. apply Hs. intros svc r' lim v ->.
    apply (Hr svc r' lim v). now left.
Qed.

Lemma _update_services_conn (ta_results : option LimitMap)
    (services : dict ref) (w : World) :
  conn (snd (_update_services ta_results services w)) = conn w
  /\ support_connects (snd (_update_services ta_results services w))
     = support_connects w.
Proof.
  destruct ta_results as [d|]; [|now split].
  rewrite _update_services_steps. unfold bind, logger.
  destruct (steps_frame (plan d services) (started w)) as (Hc & Hn & _).
  fold (started w).
  destruct (for_each (plan d services) do_action (started w))
    as [[[]|e] w1]; simpl in *; now split.
Qed.

Lemma _update_services_store_other (ta_results : LimitMap)
    (services : dict ref) (w : World) (r : ref) :
  (forall svc_name,
      In svc_name (keys ta_results) ->
      dict_get services svc_name <> Some r) ->
  store (snd (_update_services (Some ta_results) services w)) r = store w r.
Proof.
  intros Hother.
  rewrite _update_services_steps. unfold bind, logger. fold (started w).
  destruct (steps_frame (plan ta_results services) (started w))
    as (_ & _ & Hs).
  assert (Hr : forall svc r' lim v,
             In (Attempt svc r' lim v) (plan ta_results services) -> r' <> r).
  { intros svc r' lim v Hin. apply plan_In in Hin. destruct Hin as [Hg Hv].
    intros ->. apply (Hother svc); [|exact Hg].
    unfold get2 in Hv.
    destruct (dict_get ta_results svc) as [limits|] eqn:E; [|discriminate].
    apply dict_mem_keys. now apply dict_mem_get with limits. }
  specialize (Hs r Hr).
  destruct (for_each (plan ta_results services) do_action (started w))
    as [[[]|e] w1]; simpl in *; exact Hs.
Qed.

(** X8: [_update_services] reaches a service object only through a name of
    the map.  An object that no service name of the map refers to in the
    registry is left exactly as it was, on every path, a raised exception
    included; the connection and the count of connections are never
    touched. *)
Theorem _update_services_leaves_others_alone (ta_results : LimitMap)
    (services : dict ref) (w : World) (r : ref) :
  (forall svc_name,
      In svc_name (keys ta_results) ->
      dict_get services svc_name <> Some r) ->
  store (snd (_update_services (Some ta_results) services w)) r = store w r
  /\ conn (snd (_update_services (Some ta_results) services w)) = conn w
  /\ support_connects (snd (_update_services (Some ta_results) services w))
     = support_connects w.
Proof.
  intros Hother. split; [|apply _update_services_conn].
  now apply _update_services_store_other.
Qed.

Lemma plan_all_unknown (ta_results : LimitMap) (services : dict ref)
    (names : list string) :
  (forall k, In k names -> In k (keys ta_results)) ->
  (forall k, In k names -> dict_mem services k = false) ->
  flat_map (service_steps ta_results services) names = map Unknown names.
Proof.
  induction names as [|k names IH]; intros Hin Hun; [reflexivity|].
  cbn [flat_map map]. rewrite IH by auto using in_cons.
  unfold service_steps.
  destruct (dict_get_keys ta_results k) as [limits ->]; [apply Hin; now left|].
  rewrite (dict_mem_false_get services k) by (apply Hun; now left).
  reflexivity.
Qed.

Lemma steps_unknown (names : list string) :
  forall w,
    fst (for_each (map Unknown names) do_action w) = Ok tt
    /\ store (snd (for_each (map Unknown names) do_action w)) = store w
    /\ log (snd (for_each (map Unknown names) do_action w))
       = log w ++ map (fun k => (CRITICAL, unknown_service_msg k)) names.
Proof.
  induction names as [|k names IH]; intros w.
  - repeat split. simpl. now rewrite app_nil_r.
  - change (for_each (map Unknown (k :: names)) do_action w)
      with (for_each (map Unknown names) do_action
              (emit CRITICAL (unknown_service_msg k) w)).
    destruct (IH (emit CRITICAL (unknown_service_msg k) w)) as (H1 & H2 & H3).
    repeat split; [exact H1 | exact H2 |].
    rewrite H3. simpl. now rewrite <- app_assoc.
Qed.

(** X9: when the registry knows none of the services of the map (an empty
    map included), [_update_services] returns normally, changes no service
    object, and logs, between its opening and closing records, one critical
    record per service name of the map, in sorted order. *)
Theorem _update_services_all_unknown (ta_results : LimitMap)
    (services : dict ref) (w : World) :
  (forall svc_name,
      In svc_name (keys ta_results) -> dict_mem services svc_name = false) ->
  fst (_update_services (Some ta_results) services w) = Ok tt
  /\ store (snd (_update_services (Some ta_results) services w)) = store w
  /\ log (snd (_update_services (Some ta_results) services w))
     = log w
       ++ (DEBUG, "Updating TA limits on all services")
          :: map (fun k => (CRITICAL, unknown_service_msg k))
               (sorted (keys ta_results))
       ++ [(INFO, "Done updating TA limits on all services")].
Proof.
  intros Hun. rewrite _update_services_steps. unfold plan.
  rewrite plan_all_unknown;
    [| intros k; apply sorted_In
     | intros k Hk; apply Hun; now apply sorted_In ].
  unfold bind, logger. fold (started w).
  destruct (steps_unknown (sorted (keys ta_results)) (started w))
    as (H1 & H2 & H3).
  destruct (for_each _ do_action (started w)) as [[[]|e] w1]; simpl in *;
    [|discriminate].
  repeat split; [exact H2|].
  rewrite H3. rewrite <- !app_assoc. reflexivity.
Qed.

(** ** The session across calls *)

Lemma connect_ok_connected (w : World) :
  fst (connect w) = Ok tt -> exists c, conn (snd (connect w)) = Some c.
Proof.
  unfold connect, bind, self_conn, logger, boto_connect_support, set_conn, ret.
  simpl. destruct (conn w) as [c|] eqn:Hc; simpl.
  - intros _. now exists c.
  - destruct connect_support as [c|]; simpl; [|discriminate].
    intros _. now exists c.
Qed.

Lemma update_limits_conn (services : dict ref) (w : World) :
  conn (snd (update_limits services w)) = conn (snd (connect w))
  /\ support_connects (snd (update_limits services w))
     = support_connects (snd (connect w)).
Proof.
  unfold update_limits, bind.
  destruct (connect w) as [[[]|e] w1]; simpl; [|now split].
  destruct (_poll_only_logged w1) as (Hc & _ & Hn & _).
  destruct (_poll w1) as [[ta|e] w2]; simpl in *; [|now split].
  destruct (_update_services_conn ta services w2) as [Hc' Hn'].
  split; congruence.
Qed.

Lemma update_limits_ok_connected (services : dict ref) (w : World) :
  fst (update_limits services w) = Ok tt ->
  exists c, conn (snd (update_limits services w)) = Some c.
Proof.
  intros H. rewrite (proj1 (update_limits_conn services w)).
  apply connect_ok_connected.
  revert H. unfold update_limits, bind.
  destruct (connect w) as [[[]|e] w1]; simpl; [reflexivity | discriminate].
Qed.

(** X10: the connection made by one [update_limits] serves the next.  Two
    calls in a row on a new object call [boto.connect_support] exactly once,
    and from any state the second call makes no connection of its own,
    whatever registries the two calls are given. *)
Theorem update_limits_reuses_session (services1 services2 : dict ref)
    (w : World) :
  support_connects
    (snd ((update_limits services1 ;; update_limits services2) (__init__ w)))
  = S (support_connects w)
  /\ support_connects
       (snd ((update_limits services1 ;; update_limits services2) w))
     = support_connects (snd (update_limits services1 w)).
Proof.
  assert (Hsecond : forall w0,
             support_connects
               (snd ((update_limits services1 ;; update_limits services2) w0))
             = support_connects (snd (update_limits services1 w0))).
  { intros w0. unfold bind.
    pose proof (update_limits_ok_connected services1 w0) as Hc.
    destruct (update_limits services1 w0) as [[[]|e] w1]; simpl in *;
      [|reflexivity].
    destruct (Hc eq_refl) as [c Hc1].
    rewrite (proj2 (update_limits_conn services2 w1)).
    now rewrite (connect_connected w1 c Hc1). }
  split; [|apply Hsecond].
  rewrite Hsecond, (proj2 (update_limits_conn services1 (__init__ w))).
  now rewrite connect_counts.
Qed.

(** X11: a connection that could not be made is not remembered.  When
    [boto.connect_support] raises, [connect] raises the same exception
    after its "Connecting" record and before its "Connected" record, no
    connection is stored, and the next [connect] calls
    [boto.connect_support] again. *)
Theorem connect_failure_is_retried (w : World) (e : exn) :
  conn w = None -> connect_support = Raise e ->
  fst (connect w) = Raise e
  /\ conn (snd (connect w)) = None
  /\ log (snd (connect w))
     = log w ++ [(DEBUG, "Connecting to Support API (TrustedAdvisor)")]
  /\ support_connects (snd (connect (snd (connect w))))
     = S (S (support_connects w)).
Proof.
  intros Hc Hb.
  assert (Hrun : connect w
                 = (Raise e,
                    {| conn := None; store := store w;
                       log := log w
                              ++ [(DEBUG,
                                   "Connecting to Support API (TrustedAdvisor)")];
                       support_connects := S (support_connects w) |})).
  { unfold connect, bind, self_conn, logger, boto_connect_support, emit.
    simpl. rewrite Hc. simpl. rewrite Hb. simpl. rewrite ?Hc. reflexivity. }
  rewrite Hrun. simpl. repeat split.
  rewrite connect_counts. reflexivity.
Qed.

(** ** A whole [update_limits] *)

(** X12: a whole successful run.  When the check is located, its result
    fetched, the timestamp parsed and every retained row read, and the
    services fail on unknown limit names only, [update_limits] returns
    normally; a service object known under one name ends as the calls for
    the polled limits of that service, in sorted order of limit name, leave
    it; and an object that no polled service name refers to is unchanged. *)
Theorem update_limits_applies_polled_limits (services : dict ref)
    (w : World) (c : Connection) (check : Check) (cr : CheckResult)
    (dt : string) (res : LimitMap) :
  session w c -> locates c check ->
  describe_trusted_advisor_check_result c (check_id check) = Ok cr ->
  parser_parse (timestamp cr) = Ok dt ->
  poll_rows (region_name c) (check_metadata check) (flaggedResources cr) []
  = Ok res ->
  raises_only_ValueError ->
  fst (update_limits services w) = Ok tt
  /\ (forall svc_name r limits,
        dict_get res svc_name = Some limits ->
        dict_get services svc_name = Some r ->
        (forall svc', dict_get services svc' = Some r -> svc' = svc_name) ->
        store (snd (update_limits services w)) r
        = service_after (store w r) (sorted_items limits))
  /\ (forall r,
        (forall svc_name,
            In svc_name (keys res) -> dict_get services svc_name <> Some r) ->
        store (snd (update_limits services w)) r = store w r).
Proof.
  intros Hs (pre & post & Hd & Hpre & Hchk) Hr Ht Hrows Hve.
  destruct (connect_ok w c Hs) as (w1 & Hrun1 & Hc1 & Hs1).
  pose proof (_poll_found_run w1 c pre check post cr dt res
                Hc1 Hd Hpre Hchk Hr Ht Hrows) as Hrun2.
  assert (Hwf : well_formed res).
  { eapply poll_rows_well_formed; [|exact Hrows].
    split; [constructor | discriminate]. }
  unfold update_limits, bind. rewrite Hrun1, Hrun2.
  match goal with
  | |- context [_update_services (Some res) services ?w2] => set (w2' := w2)
  end.
  assert (Hs2 : store w2' = store w) by (unfold w2'; simpl; exact Hs1).
  split; [|split].
  - now rewrite _update_services_total.
  - intros svc r limits Hl Hg Hown.
    rewrite _update_services_total by exact Hve.
    change (store (fold_left apply_action (plan res services) (started w2')) r
            = service_after (store w r) (sorted_items limits)).
    rewrite steps_store.
    change (store (started w2')) with (store w2'). rewrite Hs2.
    apply plan_on_service with svc; auto. apply Hwf.
  - intros r Hother.
    rewrite (_update_services_store_other res services w2' r Hother).
    now rewrite Hs2.
Qed.

(** ** When the poll succeeds *)

Lemma poll_row_ok_iff (region : string) (metadata : list string)
    (res : LimitMap) (row : FlaggedResource) :
  (exists res', poll_row region metadata res row = Ok res')
  <-> row_reads region metadata row.
Proof.
  split.
  - intros [res' Hrow].
    destruct (String.eqb_spec (res_region row) region) as [Hreg|Hreg];
      [|now left].
    right. now apply poll_row_retained_inv with region res res'.
  - intros [Hreg|(svc & lim & a & v & Hs & Hl & Ha & Hv)].
    + exists res. now apply poll_row_other_region.
    + destruct (String.eqb_spec (res_region row) region) as [Hreg|Hreg].
      * destruct (poll_row_store region metadata res row svc lim a v)
          as (res' & Hrow & _); auto.
        now exists res'.
      * exists res. now apply poll_row_other_region.
Qed.

(** The exception of a row does not depend on the map built so far. *)
Lemma poll_row_raise_any_map (region : string) (metadata : list string)
    (res res2 : LimitMap) (row : FlaggedResource) (e : exn) :
  poll_row region metadata res row = Raise e ->
  poll_row region metadata res2 row = Raise e.
Proof.
  unfold poll_row, getitem.
  destruct (negb (res_region row =? region)); [discriminate|].
  destruct (dict_get (row_data metadata row) "Service") as [svc|];
    [|auto].
  destruct (dict_get (row_data metadata row) "Limit Amount") as [amount|];
    [|auto].
  destruct (int amount) as [value|]; [|auto].
  assert (Hl : forall m : LimitMap,
             exists l,
               dict_get (if negb (dict_mem m svc) then dict_set m svc []
                         else m) svc = Some l).
  { intros m. unfold dict_mem.
    destruct (dict_get m svc) as [l|] eqn:E; simpl.
    - now exists l.
    - exists []. apply dict_get_set_same. }
  destruct (Hl res) as [l ->]. destruct (Hl res2) as [l2 ->].
  destruct (dict_get (row_data metadata row) "Limit Name");
    [discriminate | auto].
Qed.

(** X13: whether the loop of [_poll] succeeds is decided row by row.  It
    returns a map exactly when every row either lies in another region or
    has its three fields and an integer amount; the map built so far never
    makes a row fail, and the exception raised is that of the first row
    that cannot be read. *)
Theorem poll_succeeds_row_by_row (region : string) (metadata : list string)
    (rows : list FlaggedResource) (res : LimitMap) :
  ((exists res', poll_rows region metadata rows res = Ok res')
   <-> Forall (row_reads region metadata) rows)
  /\ (forall good bad rest res2 e,
        rows = good ++ bad :: rest ->
        Forall (row_reads region metadata) good ->
        poll_row region metadata res2 bad = Raise e ->
        poll_rows region metadata rows res = Raise e).
Proof.
  split.
  - revert res. induction rows as [|r rows IH]; intros res; simpl.
    + split; [constructor | now exists res].
    + split.
      * intros [res' Hrun].
        destruct (poll_row region metadata res r) as [res1|] eqn:Hrow;
          [|discriminate].
        constructor.
        -- apply (poll_row_ok_iff region metadata res r). now exists res1.
        -- apply (IH res1). now exists res'.
      * intros Hall. inversion Hall as [|? ? Hr Hrest]; subst.
        apply (poll_row_ok_iff region metadata res r) in Hr.
        destruct Hr as [res1 ->]. now apply IH.
  - intros good bad rest res2 e -> Hgood Hbad.
    rewrite poll_rows_app.
    assert (Hrun : exists res1, poll_rows region metadata good res = Ok res1).
    { clear Hbad. revert res.
      induction Hgood as [|r good Hr _ IH]; intros res; simpl.
      - now exists res.
      - apply (poll_row_ok_iff region metadata res r) in Hr.
        destruct Hr as [res1 ->]. apply IH. }
    destruct Hrun as [res1 ->]. simpl.
    now rewrite (poll_row_raise_any_map region metadata res2 res1 bad e Hbad).
Qed.

(** X14: a check result without a row for the region of the session is no
    error.  [_poll] then returns an empty dict, not [None], and
    [update_limits] returns normally without touching a service object,
    whatever the services do. *)
Theorem update_limits_no_row_in_region (services : dict ref) (w : World)
    (c : Connection) (check : Check) (cr : CheckResult) (dt : string) :
  session w c -> locates c check ->
  describe_trusted_advisor_check_result c (check_id check) = Ok cr ->
  parser_parse (timestamp cr) = Ok dt ->
  Forall (fun row => res_region row <> region_name c) (flaggedResources cr) ->
  fst (update_limits services w) = Ok tt
  /\ store (snd (update_limits services w)) = store w.
Proof.
  intros Hs (pre & post & Hd & Hpre & Hchk) Hr Ht Hrows.
  destruct (connect_ok w c Hs) as (w1 & Hrun1 & Hc1 & Hs1).
  assert (Hempty : poll_rows (region_name c) (check_metadata check)
                     (flaggedResources cr) [] = Ok []).
  { rewrite poll_rows_filter.
    replace (filter (fun r => res_region r =? region_name c)
               (flaggedResources cr)) with (@nil FlaggedResource);
      [reflexivity|].
    induction Hrows as [|r rows Hne _ IH]; simpl; [reflexivity|].
    apply String.eqb_neq in Hne. now rewrite Hne. }
  pose proof (_poll_found_run w1 c pre check post cr dt []
                Hc1 Hd Hpre Hchk Hr Ht Hempty) as Hrun2.
  unfold update_limits, bind. rewrite Hrun1, Hrun2.
  rewrite _update_services_steps.
  split; [reflexivity | exact Hs1].
Qed.

End TrustedAdvisor.

(** ** The theorems on the sample data *)

Lemma update_limits_check_absent_raises_witness :
  fst (update_limits AwsService AwsService_set_ta_limit
         (Ok Sample.basic_support) Sample.parse Sample.services Sample.fresh)
  = Raise (AttributeError "'NoneType' object has no attribute 'keys'")
  /\ store (snd (update_limits AwsService AwsService_set_ta_limit
                   (Ok Sample.basic_support) Sample.parse Sample.services
                   Sample.fresh))
     = store Sample.fresh.
Proof.
  apply (update_limits_check_absent_raises AwsService AwsService_set_ta_limit
           (Ok Sample.basic_support) Sample.parse Sample.services
           Sample.fresh Sample.basic_support
           [Sample.lowercase_check; Sample.security_check]).
  - right. split; reflexivity.
  - reflexivity.
  - repeat constructor.
Defined.

Lemma locator_returns_first_match_witness :
  fst (_get_limit_check_id AwsService Sample.connected)
  = Ok (Some ("eW7HH0l7J9", Sample.fields)).
Proof.
  apply (proj1 (locator_returns_first_match AwsService Sample.connected
                  Sample.support Sample.checks eq_refl eq_refl)
           [Sample.lowercase_check; Sample.security_check]
           Sample.limits_check [Sample.second_limits_check]).
  - reflexivity.
  - intros x [<-|[<-|[]]] [Hcat Hname]; discriminate.
  - reflexivity.
  - reflexivity.
Defined.

Lemma poll_keeps_session_region_only_witness :
  fst (_poll AwsService Sample.parse Sample.connected)
  = Ok (Some Sample.polled).
Proof.
  refine (eq_trans
            (proj1 (poll_keeps_session_region_only AwsService Sample.parse
                      Sample.connected Sample.support
                      [Sample.lowercase_check; Sample.security_check]
                      Sample.limits_check [Sample.second_limits_check]
                      Sample.check_result "2015-06-15T20:27:42Z"
                      eq_refl eq_refl _ eq_refl eq_refl eq_refl))
            eq_refl).
  repeat constructor.
Defined.

Lemma poll_row_projection_witness :
  exists res',
    poll_row "us-east-1"
      ["Region"; "Service"; "Limit Name"; "Limit Amount"] []
      {| res_region := "us-east-1";
         res_metadata := ["us-east-1"; "EC2"; "Running On-Demand Instances";
                          "20"] |}
    = Ok res' /\
    get2 res' "EC2" "Running On-Demand Instances" = Some 20%Z /\
    (forall s l,
        s <> "EC2" \/ l <> "Running On-Demand Instances" ->
        get2 res' s l = get2 [] s l).
Proof.
  exact (proj2 (poll_row_projection "us-east-1"
                  ["Region"; "Service"; "Limit Name"; "Limit Amount"] []
                  Sample.first_row "EC2" "Running On-Demand Instances" "20"
                  20%Z eq_refl eq_refl eq_refl eq_refl eq_refl)).
Defined.

Lemma poll_last_write_wins_witness :
  get2 Sample.polled "EC2" "Running On-Demand Instances" = Some 25%Z.
Proof.
  apply (poll_last_write_wins AwsService Sample.parse
           "us-east-1" Sample.fields
           [Sample.first_row; Sample.foreign_row] Sample.repeated_row
           [Sample.vpc_row; Sample.short_row] [] Sample.polled
           "EC2" "Running On-Demand Instances" "25" 25%Z).
  - reflexivity.
  - repeat split.
  - reflexivity.
  - reflexivity.
  - intros r [<-|[<-|[]]] (Hreg & Hsvc & Hlim); discriminate.
Defined.

(** The modelled service class keeps the contract. *)
Lemma AwsService_raises_only_ValueError :
  raises_only_ValueError AwsService AwsService_set_ta_limit.
Proof.
  intros s lim v e. unfold AwsService_set_ta_limit.
  destruct (dict_mem (limits s) lim); simpl; [discriminate|].
  now intros [= <-].
Qed.

Lemma unknown_service_is_skipped_witness :
  exists w',
    _update_services AwsService AwsService_set_ta_limit (Some Sample.mixed)
      Sample.services Sample.connected = (Ok tt, w')
    /\ In (CRITICAL, unknown_service_msg "Foo") (log w')
    /\ (forall r lim value,
          ~ In (Attempt "Foo" r lim value)
              (plan Sample.mixed Sample.services))
    /\ In (Attempt "VPC" 1 "VPCs" 5%Z) (plan Sample.mixed Sample.services)
    /\ store w' 1
       = service_after AwsService AwsService_set_ta_limit
           (store Sample.connected 1) (sorted_items [("VPCs", 5%Z)]).
Proof.
  destruct (unknown_service_is_skipped AwsService AwsService_set_ta_limit
              Sample.mixed Sample.services Sample.connected
              AwsService_raises_only_ValueError)
    as (w' & Hrun & Hunknown & Hknown & Hstore).
  exists w'. split; [exact Hrun|].
  destruct (Hunknown "Foo") as (Hlog & _ & Hnone);
    [simpl; auto | reflexivity |].
  split; [exact Hlog|]. split; [exact Hnone|]. split.
  - apply Hknown; reflexivity.
  - apply (Hstore "VPC" 1 [("VPCs", 5%Z)]); try reflexivity.
    + repeat constructor; simpl; intuition discriminate.
    + intros svc'. unfold Sample.services. cbn [dict_get].
      destruct (String.eqb_spec "EC2" svc'); [intros [=]|].
      destruct (String.eqb_spec "VPC" svc'); [auto | intros [=]].
Defined.

Lemma unknown_limit_is_skipped_witness :
  _update_services AwsService AwsService_set_ta_limit (Some Sample.mixed)
    Sample.services Sample.connected
  = (Ok tt,
     finished AwsService
       (fold_left (apply_action AwsService AwsService_set_ta_limit)
          [Attempt "EC2" 0 "Running On-Demand Instances" 20%Z;
           Unknown "Foo"; Attempt "VPC" 1 "VPCs" 5%Z]
          (emit AwsService WARNING (unknown_limit_msg "Bogus" "EC2")
             (called AwsService AwsService_set_ta_limit 0 "Bogus" 7%Z
                (started AwsService Sample.connected))))).
Proof.
  exact (proj1 (unknown_limit_is_skipped AwsService AwsService_set_ta_limit
                  Sample.mixed Sample.services Sample.connected
                  [] "EC2" 0 "Bogus" 7%Z
                  [Attempt "EC2" 0 "Running On-Demand Instances" 20%Z;
                   Unknown "Foo"; Attempt "VPC" 1 "VPCs" 5%Z]
                  (ValueError "EC2 service has no 'Bogus' limit")
                  AwsService_raises_only_ValueError eq_refl eq_refl)).
Defined.

Lemma mixed_well_formed : well_formed Sample.mixed.
Proof.
  split.
  - repeat constructor; simpl; intuition discriminate.
  - intros svc limits. unfold Sample.mixed. cbn [dict_get].
    repeat match goal with
           | |- context [String.eqb ?a svc] => destruct (String.eqb a svc)
           end;
      intros [= <-]; repeat constructor; simpl; intuition discriminate.
Qed.

Lemma mixed_reordered_well_formed : well_formed Sample.mixed_reordered.
Proof.
  split.
  - repeat constructor; simpl; intuition discriminate.
  - intros svc limits. unfold Sample.mixed_reordered. cbn [dict_get].
    repeat match goal with
           | |- context [String.eqb ?a svc] => destruct (String.eqb a svc)
           end;
      intros [= <-]; repeat constructor; simpl; intuition discriminate.
Qed.

Lemma mixed_same_map : same_map Sample.mixed Sample.mixed_reordered.
Proof.
  intros svc lim. unfold dict_mem, get2, Sample.mixed, Sample.mixed_reordered.
  cbn [dict_get].
  destruct (String.eqb_spec "Foo" svc) as [<-|]; [split; reflexivity|].
  destruct (String.eqb_spec "VPC" svc) as [<-|]; [split; reflexivity|].
  destruct (String.eqb_spec "EC2" svc) as [<-|]; [|split; reflexivity].
  split; [reflexivity|]. cbn [dict_get].
  destruct (String.eqb_spec "Running On-Demand Instances" lim) as [<-|];
    [reflexivity|].
  now destruct (String.eqb_spec "Bogus" lim).
Qed.

Lemma processing_order_is_sorted_witness :
  StronglySorted (fun a b => action_lt a b = true)
    (plan Sample.mixed Sample.services)
  /\ plan Sample.mixed_reordered Sample.services
     = plan Sample.mixed Sample.services
  /\ _update_services AwsService AwsService_set_ta_limit
       (Some Sample.mixed_reordered) Sample.services Sample.connected
     = _update_services AwsService AwsService_set_ta_limit
         (Some Sample.mixed) Sample.services Sample.connected.
Proof.
  exact (proj2 (processing_order_is_sorted AwsService AwsService_set_ta_limit
                  Sample.mixed Sample.mixed_reordered Sample.services
                  Sample.connected mixed_well_formed
                  mixed_reordered_well_formed mixed_same_map)).
Defined.

Lemma only_ValueError_is_swallowed_witness :
  _update_services AwsService Sample.strict_set_ta_limit
    (Some Sample.negative) Sample.services Sample.connected
  = (Raise (KeyError "Zones"),
     called AwsService Sample.strict_set_ta_limit 0 "Zones" 3%Z
       (snd (for_each AwsService
               [Attempt "EC2" 0 "Instances" (-1)%Z;
                Attempt "EC2" 0 "Running On-Demand Instances" 20%Z]
               (do_action AwsService Sample.strict_set_ta_limit)
               (started AwsService Sample.connected))))
  /\ _update_services AwsService Sample.strict_set_ta_limit
       (Some Sample.negative) Sample.services Sample.connected
     = bind AwsService
         (for_each AwsService
            [Attempt "EC2" 0 "Running On-Demand Instances" 20%Z;
             Attempt "EC2" 0 "Zones" 3%Z; Attempt "VPC" 1 "VPCs" 5%Z]
            (do_action AwsService Sample.strict_set_ta_limit))
         (fun _ =>
            logger AwsService INFO "Done updating TA limits on all services")
         (emit AwsService WARNING (unknown_limit_msg "Instances" "EC2")
            (called AwsService Sample.strict_set_ta_limit 0 "Instances"
               (-1)%Z (started AwsService Sample.connected))).
Proof.
  split.
  - apply (proj1 (proj2
             (only_ValueError_is_swallowed AwsService
                Sample.strict_set_ta_limit Sample.negative Sample.services
                Sample.connected
                [Attempt "EC2" 0 "Instances" (-1)%Z;
                 Attempt "EC2" 0 "Running On-Demand Instances" 20%Z]
                "EC2" 0 "Zones" 3%Z [Attempt "VPC" 1 "VPCs" 5%Z]
                _ (KeyError "Zones") eq_refl eq_refl eq_refl))).
    reflexivity.
  - exact (proj1
             (only_ValueError_is_swallowed AwsService
                Sample.strict_set_ta_limit Sample.negative Sample.services
                Sample.connected [] "EC2" 0 "Instances" (-1)%Z
                [Attempt "EC2" 0 "Running On-Demand Instances" 20%Z;
                 Attempt "EC2" 0 "Zones" 3%Z; Attempt "VPC" 1 "VPCs" 5%Z]
                _ (ValueError "limit value must not be negative")
                eq_refl eq_refl eq_refl) eq_refl).
Defined.

(** ** Runs on the sample data *)

(** A whole [update_limits]: one connection is made, the rows of us-east-1
    set the limits (the repeated row last), and both loops finish. *)
Example update_limits_sample_run :
  let run := update_limits AwsService AwsService_set_ta_limit
               (Ok Sample.support) Sample.parse Sample.services
               Sample.fresh in
  fst run = Ok tt
  /\ support_connects (snd run) = 1
  /\ limits (store (snd run) 0)
     = [("Running On-Demand Instances", Some 25%Z); ("Instances", None)]
  /\ limits (store (snd run) 1) = [("VPCs", Some 5%Z)].
Proof. repeat split. Qed.

(** Two calls of [connect] on a new object: one connection. *)
Example connect_twice_sample_run :
  let run := bind AwsService (connect AwsService (Ok Sample.support))
               (fun _ => connect AwsService (Ok Sample.support))
               (__init__ AwsService Sample.fresh) in
  fst run = Ok tt
  /\ support_connects (snd run) = 1
  /\ conn (snd run) = Some Sample.support.
Proof. repeat split. Qed.

(** A map with an unknown service and an unknown limit: the other entries
    are applied, and the log tells what was skipped. *)
Example _update_services_sample_run :
  let run := _update_services AwsService AwsService_set_ta_limit
               (Some Sample.mixed) Sample.services Sample.connected in
  fst run = Ok tt
  /\ log (snd run)
     = [(DEBUG, "Updating TA limits on all services");
        (WARNING, unknown_limit_msg "Bogus" "EC2");
        (CRITICAL, unknown_service_msg "Foo");
        (INFO, "Done updating TA limits on all services")]
  /\ limits (store (snd run) 0)
     = [("Running On-Demand Instances", Some 20%Z); ("Instances", None)]
  /\ limits (store (snd run) 1) = [("VPCs", Some 5%Z)].
Proof. repeat split. Qed.

(** "Alpha" is served before "Zeta", whichever was inserted first. *)
Example plan_Alpha_before_Zeta :
  plan [("Zeta", [("b", 2%Z); ("a", 1%Z)]); ("Alpha", [("c", 3%Z)])]
       [("Zeta", 0); ("Alpha", 1)]
  = [Attempt "Alpha" 1 "c" 3%Z; Attempt "Zeta" 0 "a" 1%Z;
     Attempt "Zeta" 0 "b" 2%Z].
Proof. reflexivity. Qed.

(** A row of the session's region with a malformed amount stops the poll
    with the [ValueError] of [int]; the same row in another region is never
    read. *)
Example poll_row_malformed_amount :
  poll_row "us-east-1" Sample.fields []
    (Sample.row "us-east-1" "EC2" "Instances" "twenty")
  = Raise (ValueError "invalid literal for int() with base 10: 'twenty'")
  /\ poll_row "us-east-1" Sample.fields []
       (Sample.row "eu-west-1" "EC2" "Instances" "twenty")
     = Ok [].
Proof. split; reflexivity. Qed.

Example int_samples :
  int "20" = Ok 20%Z /\ int " -12 " = Ok (-12)%Z /\ int "+7" = Ok 7%Z
  /\ int "" = Raise (ValueError "invalid literal for int() with base 10: ''").
Proof. repeat split. Qed.

(** ** The further properties on the sample data *)

Lemma sample_locates (c : Connection) :
  describe_trusted_advisor_checks c "en" = Ok Sample.checks ->
  locates c Sample.limits_check.
Proof.
  intros H.
  exists [Sample.lowercase_check; Sample.security_check],
    [Sample.second_limits_check].
  repeat split; [exact H | repeat constructor].
Qed.

Lemma update_limits_transport_errors_witness :
  fst (update_limits AwsService AwsService_set_ta_limit
         (Raise Faulty.refused) Sample.parse Sample.services Sample.fresh)
  = Raise Faulty.refused
  /\ fst (update_limits AwsService AwsService_set_ta_limit
            (Ok Faulty.no_listing) Sample.parse Sample.services Sample.fresh)
     = Raise Faulty.refused
  /\ fst (update_limits AwsService AwsService_set_ta_limit
            (Ok Faulty.no_result) Sample.parse Sample.services Sample.fresh)
     = Raise Faulty.refused.
Proof.
  split; [|split].
  - apply (proj1 (update_limits_transport_errors AwsService
                    AwsService_set_ta_limit (Raise Faulty.refused)
                    Sample.parse Sample.services Sample.fresh
                    Faulty.refused) eq_refl eq_refl).
  - apply (proj1 (proj2 (update_limits_transport_errors AwsService
                           AwsService_set_ta_limit (Ok Faulty.no_listing)
                           Sample.parse Sample.services Sample.fresh
                           Faulty.refused)) Faulty.no_listing).
    + right. split; reflexivity.
    + reflexivity.
  - apply (proj2 (proj2 (update_limits_transport_errors AwsService
                           AwsService_set_ta_limit (Ok Faulty.no_result)
                           Sample.parse Sample.services Sample.fresh
                           Faulty.refused)) Faulty.no_result
             Sample.limits_check).
    + right. split; reflexivity.
    + now apply sample_locates.
    + reflexivity.
Defined.

Lemma update_limits_unparsable_timestamp_witness :
  fst (update_limits AwsService AwsService_set_ta_limit (Ok Sample.support)
         Faulty.parse_fails Sample.services Sample.fresh)
  = Raise (ValueError "Unknown string format")
  /\ store (snd (update_limits AwsService AwsService_set_ta_limit
                   (Ok Sample.support) Faulty.parse_fails Sample.services
                   Sample.fresh))
     = store Sample.fresh.
Proof.
  apply (update_limits_unparsable_timestamp AwsService
           AwsService_set_ta_limit (Ok Sample.support) Faulty.parse_fails
           Sample.services Sample.fresh Sample.support Sample.limits_check
           Sample.check_result).
  - right. split; reflexivity.
  - now apply sample_locates.
  - reflexivity.
  - reflexivity.
Defined.

Lemma update_limits_bad_row_applies_nothing_witness :
  fst (update_limits AwsService AwsService_set_ta_limit
         (Ok Faulty.word_support) Sample.parse Sample.services Sample.fresh)
  = Raise (ValueError "invalid literal for int() with base 10: 'five'")
  /\ store (snd (update_limits AwsService AwsService_set_ta_limit
                   (Ok Faulty.word_support) Sample.parse Sample.services
                   Sample.fresh))
     = store Sample.fresh.
Proof.
  apply (update_limits_bad_row_applies_nothing AwsService
           AwsService_set_ta_limit (Ok Faulty.word_support) Sample.parse
           Sample.services Sample.fresh Faulty.word_support
           Sample.limits_check Faulty.word_result "2015-06-15T20:27:42Z"
           [Sample.first_row] Faulty.word_row [Sample.vpc_row]
           [("EC2", [("Running On-Demand Instances", 20%Z)])]).
  - right. split; reflexivity.
  - now apply sample_locates.
  - reflexivity.
  - reflexivity.
  - reflexivity.
  - reflexivity.
  - reflexivity.
Defined.

Lemma _poll_returns_well_formed_map_witness :
  well_formed Sample.polled
  /\ forall svc, dict_mem Sample.polled svc = true ->
                 exists lim value, get2 Sample.polled svc lim = Some value.
Proof.
  exact (_poll_returns_well_formed_map AwsService Sample.parse
           Sample.connected Sample.polled eq_refl).
Defined.

Lemma polled_entries_come_from_rows_witness :
  exists c check cr row amount,
    conn Sample.connected = Some c /\ locates c check /\
    describe_trusted_advisor_check_result c (check_id check) = Ok cr /\
    In row (flaggedResources cr) /\
    row_targets (region_name c) (check_metadata check) "VPC" "VPCs" row /\
    dict_get (row_data (check_metadata check) row) "Limit Amount"
    = Some amount /\
    int amount = Ok 5%Z.
Proof.
  exact (polled_entries_come_from_rows AwsService Sample.parse
           Sample.connected Sample.polled "VPC" "VPCs" 5%Z eq_refl eq_refl).
Defined.

Lemma sample_fields_distinct : NoDup Sample.fields.
Proof.
  repeat constructor; simpl; intuition discriminate.
Qed.

Lemma row_fields_by_position_witness :
  dict_get (row_data Sample.fields Sample.first_row) "Limit Name"
  = Some "Running On-Demand Instances"
  /\ poll_row "ap-south-1" Sample.fields [] Sample.short_row
     = Raise (KeyError "Service").
Proof.
  destruct (row_fields_by_position "ap-south-1" Sample.fields []
              Sample.short_row sample_fields_distinct) as (_ & Hshort & _).
  destruct (row_fields_by_position "us-east-1" Sample.fields []
              Sample.first_row sample_fields_distinct) as (Hfield & _ & _).
  split.
  - exact (Hfield 2 "Limit Name" eq_refl).
  - apply (Hshort 1); [reflexivity | reflexivity | simpl; lia].
Defined.

Lemma _update_services_leaves_others_alone_witness :
  store (snd (_update_services AwsService AwsService_set_ta_limit
                (Some Sample.polled) [("EC2", 0); ("VPC", 1); ("S3", 2)]
                Sample.connected)) 2
  = store Sample.connected 2.
Proof.
  apply (_update_services_leaves_others_alone AwsService
           AwsService_set_ta_limit Sample.polled
           [("EC2", 0); ("VPC", 1); ("S3", 2)] Sample.connected 2).
  intros svc [<-|[<-|[]]]; discriminate.
Defined.

Lemma _update_services_all_unknown_witness :
  fst (_update_services AwsService AwsService_set_ta_limit
         (Some Sample.mixed) Faulty.other_services Sample.connected) = Ok tt
  /\ store (snd (_update_services AwsService AwsService_set_ta_limit
                   (Some Sample.mixed) Faulty.other_services
                   Sample.connected))
     = store Sample.connected
  /\ log (snd (_update_services AwsService AwsService_set_ta_limit
                 (Some Sample.mixed) Faulty.other_services Sample.connected))
     = log Sample.connected
       ++ (DEBUG, "Updating TA limits on all services")
          :: map (fun k => (CRITICAL, unknown_service_msg k))
               (sorted (keys Sample.mixed))
       ++ [(INFO, "Done updating TA limits on all services")].
Proof.
  apply (_update_services_all_unknown AwsService AwsService_set_ta_limit
           Sample.mixed Faulty.other_services Sample.connected).
  intros svc [<-|[<-|[<-|[]]]]; reflexivity.
Defined.

Lemma connect_failure_is_retried_witness :
  fst (connect AwsService (Raise Faulty.refused) Sample.fresh)
  = Raise Faulty.refused
  /\ conn (snd (connect AwsService (Raise Faulty.refused) Sample.fresh))
     = None
  /\ log (snd (connect AwsService (Raise Faulty.refused) Sample.fresh))
     = log Sample.fresh
       ++ [(DEBUG, "Connecting to Support API (TrustedAdvisor)")]
  /\ support_connects
       (snd (connect AwsService (Raise Faulty.refused)
               (snd (connect AwsService (Raise Faulty.refused)
                       Sample.fresh))))
     = 2.
Proof.
  exact (connect_failure_is_retried AwsService (Raise Faulty.refused)
           Sample.fresh Faulty.refused eq_refl eq_refl).
Defined.

Lemma update_limits_applies_polled_limits_witness :
  fst (update_limits AwsService AwsService_set_ta_limit (Ok Sample.support)
         Sample.parse Sample.services Sample.fresh) = Ok tt
  /\ store (snd (update_limits AwsService AwsService_set_ta_limit
                   (Ok Sample.support) Sample.parse Sample.services
                   Sample.fresh)) 0
     = service_after AwsService AwsService_set_ta_limit
         (store Sample.fresh 0)
         (sorted_items [("Running On-Demand Instances", 25%Z)]).
Proof.
  destruct (update_limits_applies_polled_limits AwsService
              AwsService_set_ta_limit (Ok Sample.support) Sample.parse
              Sample.services Sample.fresh Sample.support
              Sample.limits_check Sample.check_result "2015-06-15T20:27:42Z"
              Sample.polled)
    as (Hok & Hknown & _).
  - right. split; reflexivity.
  - now apply sample_locates.
  - reflexivity.
  - reflexivity.
  - reflexivity.
  - exact AwsService_raises_only_ValueError.
  - split; [exact Hok|].
    apply (Hknown "EC2" 0); try reflexivity.
    intros svc'. unfold Sample.services. cbn [dict_get].
    destruct (String.eqb_spec "EC2" svc'); [auto | ].
    destruct (String.eqb_spec "VPC" svc'); intros [=].
Defined.

Lemma update_limits_no_row_in_region_witness :
  fst (update_limits AwsService AwsService_set_ta_limit
         (Ok Faulty.abroad_support) Sample.parse Sample.services
         Sample.fresh) = Ok tt
  /\ store (snd (update_limits AwsService AwsService_set_ta_limit
                   (Ok Faulty.abroad_support) Sample.parse Sample.services
                   Sample.fresh))
     = store Sample.fresh.
Proof.
  apply (update_limits_no_row_in_region AwsService AwsService_set_ta_limit
           (Ok Faulty.abroad_support) Sample.parse Sample.services
           Sample.fresh Faulty.abroad_support Sample.limits_check
           Faulty.abroad_result "2015-06-15T20:27:42Z").
  - right. split; reflexivity.
  - now apply sample_locates.
  - reflexivity.
  - reflexivity.
  - repeat constructor; discriminate.
Defined.
